(** * Segment time-alignment and audio-track assembly of the dubbing pipeline

    A shallow embedding of the three routines of [src/audio_generator.py]
    that carry the algorithmic content of the repository:

    - [_time_to_milliseconds]   (the time codec),
    - [_adjust_audio_speed]     (the duration fitter) with the file choice
                                made by its caller [_generate_segment_audio],
    - [_combine_audio_segments] (the track assembler).

    Python values are modelled as follows.  A [str] is a list of code points
    below 256 ([list ascii]); the public entry points take a [string].  An
    [int] is a [Z].  A [float] is the rational [Q] that it denotes; the
    product [target_duration * sr], whose integer part is the number of
    samples written, is rounded to the nearest double as the interpreter
    does ([binary64]).  A path is the text that [str(Path)] gives on a POSIX
    system.  Exceptions caught by the [try/except Exception] blocks are
    explicit results.  The third-party audio libraries (librosa, pydub) and
    the file system are interfaces whose operations are parameters of the
    development. *)

From Stdlib Require Import ZArith QArith Qround Qpower Bool Ascii String Lia.
From Stdlib Require Import List Permutation.
Import ListNotations.

Local Open Scope Z_scope.

(** ** Python string and integer primitives *)

Module PyStr.

Definition str := list ascii.

Definition of_string (s : string) : str := list_ascii_of_string s.

Definition colon : ascii := ":"%char.
Definition zero_char : ascii := "0"%char.

(** [s.split(sep)] for a one-character separator: every occurrence of the
    separator ends a field, so the result is never empty. *)
Fixpoint str_split (sep : ascii) (s : str) : list str :=
  match s with
  | [] => [[]]
  | c :: rest =>
      if Ascii.eqb c sep then [] :: str_split sep rest
      else match str_split sep rest with
           | [] => [[c]]
           | field :: fields => (c :: field) :: fields
           end
  end.

(** [sep.join(fields)], the inverse direction, used to say which texts have
    which fields. *)
Fixpoint str_join (sep : ascii) (fields : list str) : str :=
  match fields with
  | [] => []
  | f :: rest =>
      match rest with
      | [] => f
      | _ :: _ => f ++ sep :: str_join sep rest
      end
  end.

(** [s.ljust(width, fill)]: the text itself when it is already [width] long
    or longer, otherwise padded on the right. *)
Definition str_ljust (width : nat) (fill : ascii) (s : str) : str :=
  s ++ repeat fill (width - length s).

(** Value of an ASCII decimal digit. *)
Definition digit_of (c : ascii) : option Z :=
  let n := Z.of_N (N_of_ascii c) in
  if (48 <=? n) && (n <=? 57) then Some (n - 48) else None.

Definition is_digit (c : ascii) : bool :=
  match digit_of c with Some _ => true | None => false end.

(** The white space of [str.strip] and [str.isspace]: the code points below
    256 for which [str.isspace] holds. *)
Definition is_space (c : ascii) : bool :=
  let n := Z.of_N (N_of_ascii c) in
  ((9 <=? n) && (n <=? 13)) || ((28 <=? n) && (n <=? 32))
  || (n =? 133) || (n =? 160).

(** The white space that [int()] accepts around a number: tab to carriage
    return and the space, as in C, and the two spaces above 127, which the
    conversion replaces by a space before it reads the text.  The
    separators 28 to 31 are white space for [str.strip] and not here. *)
Definition is_int_space (c : ascii) : bool :=
  let n := Z.of_N (N_of_ascii c) in
  ((9 <=? n) && (n <=? 13)) || (n =? 32) || (n =? 133) || (n =? 160).

Definition is_underscore (c : ascii) : bool := Ascii.eqb c "_"%char.

Fixpoint lstrip (s : str) : str :=
  match s with
  | c :: rest => if is_space c then lstrip rest else s
  | [] => []
  end.

Fixpoint int_lstrip (s : str) : str :=
  match s with
  | c :: rest => if is_int_space c then int_lstrip rest else s
  | [] => []
  end.

(** The digits of a decimal literal: a digit, then digits with single
    underscores allowed between them, then optional trailing white space up
    to the end of the text.  [prev_digit] tells whether the previous
    character was a digit. *)
Fixpoint int_digits (acc : Z) (prev_digit : bool) (s : str) : option Z :=
  match s with
  | [] => if prev_digit then Some acc else None
  | c :: rest =>
      match digit_of c with
      | Some d => int_digits (10 * acc + d) true rest
      | None =>
          if is_underscore c then
            if prev_digit then int_digits acc false rest else None
          else if prev_digit && forallb is_int_space s then Some acc
          else None
      end
  end.

(** [sys.get_int_max_str_digits()] as the interpreter starts: a text with
    more digits is not converted. *)
Definition int_max_str_digits : Z := 4300.

Definition count_digits (s : str) : Z := Z.of_nat (length (filter is_digit s)).

(** [int(s)] in base ten; [None] stands for [ValueError], which is raised
    for a text that is not a literal and for a literal of more than
    [int_max_str_digits] digits. *)
Definition py_int (s : str) : option Z :=
  if int_max_str_digits <? count_digits s then None
  else
    match int_lstrip s with
    | [] => None
    | c :: rest =>
        if Ascii.eqb c "-"%char then option_map Z.opp (int_digits 0 false rest)
        else if Ascii.eqb c "+"%char then int_digits 0 false rest
        else int_digits 0 false (c :: rest)
    end.

(** The number that a text of decimal digits denotes, most significant digit
    first. *)
Definition shift_in (acc : Z) (c : ascii) : Z :=
  10 * acc + match digit_of c with Some d => d | None => 0 end.

Definition decimal_value (s : str) : Z := fold_left shift_in s 0.

(** A field made of ASCII decimal digits only. *)
Definition all_digits (s : str) : bool := forallb is_digit s.

End PyStr.

(** ** Paths *)

Module PyPath.
Import PyStr.

Definition slash : ascii := "/"%char.

(** The components that [pathlib] keeps: the empty ones and the ones that
    are a single dot are dropped. *)
Definition kept_part (part : str) : bool :=
  match part with
  | [] => false
  | [c] => negb (Ascii.eqb c "."%char)
  | _ :: _ :: _ => true
  end.

Definition path_parts (p : str) : list str :=
  filter kept_part (str_split slash p).

(** The root of a POSIX path: two leading slashes are kept, one or more than
    two are one. *)
Definition path_root (p : str) : str :=
  match p with
  | c0 :: c1 :: c2 :: _ =>
      if Ascii.eqb c0 slash then
        if Ascii.eqb c1 slash && negb (Ascii.eqb c2 slash)
        then [slash; slash] else [slash]
      else []
  | [c0; c1] =>
      if Ascii.eqb c0 slash then
        if Ascii.eqb c1 slash then [slash; slash] else [slash]
      else []
  | [c0] => if Ascii.eqb c0 slash then [slash] else []
  | [] => []
  end.

(** The text of a path with the given root and components; the path
    without root and components is written as a dot. *)
Definition path_text (root : str) (parts : list str) : str :=
  match root ++ str_join slash parts with
  | [] => ["."%char]
  | c :: rest => c :: rest
  end.

(** [str(Path(a) / b)]: an absolute [b] replaces [a]. *)
Definition path_join (a b : string) : string :=
  string_of_list_ascii
    (match path_root (of_string b) with
     | [] => path_text (path_root (of_string a))
               (path_parts (of_string a) ++ path_parts (of_string b))
     | _ :: _ => path_text (path_root (of_string b)) (path_parts (of_string b))
     end).

End PyPath.

(** ** The time codec *)

Module TimeCodec.
Import PyStr.

(** The body of the [try] block of [_time_to_milliseconds]; [None] is a
    raised [ValueError], either from [int] or from the explicit [raise] on a
    field count other than 3 and 4. *)
Definition parse_fields (parts : list str) : option Z :=
  match parts with
  | [p0; p1; p2; p3] =>
      match py_int p0, py_int p1, py_int p2,
            py_int (str_ljust 3 zero_char p3) with
      | Some hours, Some minutes, Some seconds, Some milliseconds =>
          Some ((hours * 3600 + minutes * 60 + seconds) * 1000 + milliseconds)
      | _, _, _, _ => None
      end
  | [p0; p1; p2] =>
      match py_int p0, py_int p1, py_int (str_ljust 3 zero_char p2) with
      | Some minutes, Some seconds, Some milliseconds =>
          Some ((0 * 3600 + minutes * 60 + seconds) * 1000 + milliseconds)
      | _, _, _ => None
      end
  | _ => None
  end.

(** [_time_to_milliseconds] on the code points of its argument: the
    [except Exception] branch turns every raised error into 0. *)
Definition time_to_ms (time_str : str) : Z :=
  match parse_fields (str_split colon time_str) with
  | Some total_ms => total_ms
  | None => 0
  end.

Definition _time_to_milliseconds (time_str : string) : Z :=
  time_to_ms (of_string time_str).

End TimeCodec.

(** ** The duration fitter *)

Module DurationFitter.

(** A mono waveform as [librosa.load] returns it: one amplitude per sample. *)
Definition waveform := list Q.

(** A readable audio file: its samples and its sample rate. *)
Definition wav_file := (waveform * Z)%type.

(** [int(x)] on a float: truncation toward zero. *)
Definition int_of_float (x : Q) : Z := Z.quot (Qnum x) (Zpos (Qden x)).

(** [round(x)] of the language, to the nearest integer with ties to the even
    one: the rounding that the specification names, kept here to compare it
    with the truncation that the code performs. *)
Definition round_half_even (x : Q) : Z :=
  let lo := Qfloor x in
  let twice_frac := (2 * (x - inject_Z lo))%Q in
  if Qle_bool twice_frac 1 && negb (Qle_bool 1 twice_frac) then lo
  else if Qle_bool 1 twice_frac && negb (Qle_bool twice_frac 1) then lo + 1
  else if Z.even lo then lo else lo + 1.

(** The doubles.  A positive number [x] lies in the binade
    [2 ^ floor_log2 x <= x < 2 ^ (floor_log2 x + 1)]; the doubles of that
    binade are the multiples of [2 ^ ulp_exponent x], 52 binary places
    below it, and the subnormal ones are the multiples of [2 ^ -1074]. *)
Definition floor_log2 (x : Q) : Z :=
  let k := Z.log2 (Qnum x) - Z.log2 (Zpos (Qden x)) in
  if Qle_bool (2 ^ k) x then k else k - 1.

Definition ulp_exponent (x : Q) : Z := Z.max (floor_log2 x - 52) (-1074).

Definition mantissa (x : Q) : Z :=
  round_half_even (x * 2 ^ (- ulp_exponent x)).

Definition binary64_pos (x : Q) : Q :=
  (inject_Z (mantissa x) * 2 ^ ulp_exponent x)%Q.

(** The double that an arithmetic operation of the interpreter returns for
    the exact result [x]: the nearest one, the one with an even mantissa
    when two are equally near.  Results beyond the largest double, which the
    interpreter turns into [inf], are not distinguished. *)
Definition binary64 (x : Q) : Q :=
  if Qle_bool x 0
  then if Qle_bool 0 x then 0%Q else (- binary64_pos (- x))%Q
  else binary64_pos x.

(** [x * y] on floats, and on a float and an integer below 2^53, which is
    converted to a float without rounding. *)
Definition float_mul (x y : Q) : Q := binary64 (x * y).

(** [librosa.util.fix_length(data, size=n)]: the first [n] samples, padded
    with zeros on the right when there are fewer.  The fitter only calls it
    with a size that is not negative. *)
Definition fix_length (data : waveform) (size : Z) : waveform :=
  firstn (Z.to_nat size) data ++ repeat 0%Q (Z.to_nat size - length data).

(** Duration in seconds of [n] samples at rate [sr]: [len(y) / sr]. *)
Definition duration_of (n : nat) (sr : Z) : Q :=
  (inject_Z (Z.of_nat n) / inject_Z sr)%Q.

Inductive fit_error : Type :=
| InvalidDuration        (* the explicit duration guard *)
| StretchProducedEmpty   (* the explicit empty-output guard *)
| InputNotFound          (* except FileNotFoundError *)
| Raised.                (* except Exception *)

(** What a call of [_adjust_audio_speed] does: it either writes [y_fixed] to
    the output file and returns [True] (after printing the advisory when
    [extreme_ratio] holds), or writes nothing and returns [False].  Writing
    the output file and reading it back are taken to succeed. *)
Inductive fit_outcome : Type :=
| Fitted (extreme_ratio : bool) (y_fixed : waveform)
| NotFitted (why : fit_error).

Definition fit_success (r : fit_outcome) : bool :=
  match r with Fitted _ _ => true | NotFitted _ => false end.

Definition fit_written (r : fit_outcome) : option waveform :=
  match r with Fitted _ y_fixed => Some y_fixed | NotFitted _ => None end.

Section Fitter.

(** The stored audio files, read by [librosa.load(path, sr=None)]. *)
Variable load : string -> option wav_file.

(** [librosa.effects.time_stretch(y, rate=r)], the phase vocoder; [None]
    when it raises. *)
Variable time_stretch : waveform -> Q -> option waveform.

(** The product [target_duration * sr] is rounded as a float product is
    before [int] truncates it.  The two quotients are kept exact: they reach
    only the stretch, which is a parameter, and the advisory. *)
Definition _adjust_audio_speed (input_file output_file : string)
    (target_duration : Q) : fit_outcome :=
  match load input_file with
  | None => NotFitted InputNotFound
  | Some (y, sr) =>
      if sr =? 0 then NotFitted Raised          (* ZeroDivisionError *)
      else
        let current_duration := duration_of (length y) sr in
        if Qle_bool current_duration 0 || Qle_bool target_duration 0
        then NotFitted InvalidDuration
        else
          let speed_ratio := (current_duration / target_duration)%Q in
          let extreme :=
            negb (Qle_bool (1 # 2) speed_ratio && Qle_bool speed_ratio 2) in
          match time_stretch y speed_ratio with
          | None => NotFitted Raised
          | Some y_stretched =>
              let target_length_samples :=
                int_of_float (float_mul target_duration (inject_Z sr)) in
              if (length y_stretched =? 0)%nat && (0 <? target_length_samples)
              then NotFitted StretchProducedEmpty
              else Fitted extreme (fix_length y_stretched target_length_samples)
          end
  end.

(** The part of [_generate_segment_audio] that follows the saving of the raw
    clip: the value stored under ['final_audio_file'].  The adjusted file is
    used only when a target duration is given and the fit returns [True]. *)
Definition _generate_segment_audio (raw_audio_file adjusted_audio_file : string)
    (target_duration : Q) : string :=
  if negb (Qle_bool target_duration 0) then
    if fit_success
         (_adjust_audio_speed raw_audio_file adjusted_audio_file target_duration)
    then adjusted_audio_file
    else raw_audio_file
  else raw_audio_file.

End Fitter.

(** Duration in seconds of a written clip, as a later reader sees it. *)
Definition clip_duration (y : waveform) (sr : Z) : Q := duration_of (length y) sr.

End DurationFitter.

(** ** The audio segments of pydub *)

(** The operations of [pydub.AudioSegment] that the assembler uses.  The
    one fact about them that the properties below rely on is that a length
    is not negative.  Nothing is assumed on the length of [a + b]: pydub
    brings both operands to one frame rate before it joins them, silence is
    made at 11025 Hz, and [len] rounds a number of frames to milliseconds,
    so the lengths of the parts need not add up to the length of the
    whole. *)
Class Pydub : Type := {
  AudioSegment : Type;
  seg_empty : AudioSegment;                                (* AudioSegment.empty() *)
  seg_silent : Z -> AudioSegment;                          (* AudioSegment.silent(duration=d) *)
  seg_add : AudioSegment -> AudioSegment -> AudioSegment;  (* a + b *)
  seg_len : AudioSegment -> Z;                             (* len(a), in ms *)
  fade_in : Z -> AudioSegment -> AudioSegment;
  fade_out : Z -> AudioSegment -> AudioSegment;
  len_nonneg : forall a, 0 <= seg_len a
}.

(** ** The track assembler *)

Module TrackAssembler.
Import TimeCodec PyPath.

(** The entries of a generated segment that the assembler reads. *)
Record segment : Type := {
  segment_index : Z;
  start_time : string;
  final_audio_file : string
}.

(** [segments.sort(key=segment_index)]: a stable sort, written as an
    insertion sort that puts a segment before the first one of the sorted
    rest whose index is not smaller. *)
Fixpoint insert_by_index (s : segment) (sorted : list segment) : list segment :=
  match sorted with
  | [] => [s]
  | h :: t =>
      if segment_index s <=? segment_index h then s :: h :: t
      else h :: insert_by_index s t
  end.

Definition sort_by_index (segments : list segment) : list segment :=
  fold_right insert_by_index [] segments.

Section Assembler.

Context {P : Pydub}.

(** [AudioSegment.from_wav(path)]; [None] when it raises. *)
Variable from_wav : string -> option AudioSegment.

(** [audio.export(path, format="wav")]: whether the file is written;
    [false] when the call raises, as it does when the directory of the path
    does not exist. *)
Variable export_wav : string -> AudioSegment -> bool.

(** The two variables of the loop. *)
Record mix_state : Type := {
  combined_audio : AudioSegment;
  last_end_time : Z
}.

Definition initial_state : mix_state :=
  {| combined_audio := seg_empty; last_end_time := 0 |}.

(** The clip as it is appended: faded in and out over 10 ms. *)
Definition faded (segment_audio : AudioSegment) : AudioSegment :=
  fade_out 10 (fade_in 10 segment_audio).

(** The track after the silence step of one iteration. *)
Definition with_gap_silence (st : mix_state) (start_time_ms : Z) : AudioSegment :=
  if last_end_time st <? start_time_ms then
    let silence_duration := start_time_ms - last_end_time st in
    if 20 <? silence_duration
    then seg_add (combined_audio st) (seg_silent silence_duration)
    else combined_audio st
  else combined_audio st.

(** One iteration of the loop; [None] when loading the clip raises. *)
Definition add_segment (st : mix_state) (seg : segment) : option mix_state :=
  let start_time_ms := _time_to_milliseconds (start_time seg) in
  let combined := with_gap_silence st start_time_ms in
  match from_wav (final_audio_file seg) with
  | None => None
  | Some segment_audio =>
      let segment_audio := faded segment_audio in
      Some {| combined_audio := seg_add combined segment_audio;
              last_end_time := start_time_ms + seg_len segment_audio |}
  end.

(** The [for] loop, from a given state. *)
Fixpoint combine_loop (st : mix_state) (segments : list segment)
  : option mix_state :=
  match segments with
  | [] => Some st
  | seg :: rest =>
      match add_segment st seg with
      | None => None
      | Some st' => combine_loop st' rest
      end
  end.

(** What a call returns and what it writes. *)
Record combine_result : Type := {
  returned_path : string;
  exported : option (string * AudioSegment)
}.

Definition no_track : combine_result :=
  {| returned_path := EmptyString; exported := None |}.

(** [self.output_dir], set to [Path("data/output")] by the constructor. *)
Definition output_dir : string := "data/output".

Definition _combine_audio_segments (segments : list segment)
    (session_id : string) : combine_result :=
  match segments with
  | [] => no_track
  | _ :: _ =>
      match combine_loop initial_state (sort_by_index segments) with
      | None => no_track                          (* except Exception *)
      | Some st =>
          let final_audio_file :=
            path_join output_dir
              ("dubbed_audio_" ++ session_id ++ ".wav")%string in
          if export_wav final_audio_file (combined_audio st)
          then {| returned_path := final_audio_file;
                  exported := Some (final_audio_file, combined_audio st) |}
          else no_track                           (* except Exception *)
      end
  end.

(** *** Quantities used to state the properties of a run *)

(** The slot start of a segment and the gap that separates it from the
    cursor. *)
Definition slot_start (seg : segment) : Z :=
  _time_to_milliseconds (start_time seg).

Definition gap_to (st : mix_state) (seg : segment) : Z :=
  slot_start seg - last_end_time st.

(** The offset in the track at which the clip of this iteration begins. *)
Definition clip_offset (st : mix_state) (seg : segment) : Z :=
  seg_len (with_gap_silence st (slot_start seg)).

(** The iteration neither drops a gap of 1 to 20 ms nor meets an overlap:
    the slot starts at the cursor or more than 20 ms after it. *)
Definition on_cursor (st : mix_state) (seg : segment) : bool :=
  (gap_to st seg =? 0) || (20 <? gap_to st seg).

(** [check] holds at every iteration of the loop run from [st]. *)
Fixpoint every_step (check : mix_state -> segment -> bool) (st : mix_state)
    (segments : list segment) : bool :=
  match segments with
  | [] => true
  | seg :: rest =>
      check st seg &&
      match add_segment st seg with
      | None => true
      | Some st' => every_step check st' rest
      end
  end.

(** The milliseconds of the gaps that the loop run from [st] leaves out
    because they do not exceed 20 ms. *)
Definition elided_gap (st : mix_state) (seg : segment) : Z :=
  if (0 <? gap_to st seg) && (gap_to st seg <=? 20) then gap_to st seg else 0.

Fixpoint elided_ms (st : mix_state) (segments : list segment) : Z :=
  match segments with
  | [] => 0
  | seg :: rest =>
      elided_gap st seg +
      match add_segment st seg with
      | None => 0
      | Some st' => elided_ms st' rest
      end
  end.

(** *** The parts that a run appends *)

(** What the loop appends to the track with [+]: a silence made for a
    number of milliseconds, or a clip as it is after the fades. *)
Inductive piece : Type :=
| Silence (silence_duration : Z)
| Clip (segment_audio : AudioSegment).

Definition piece_audio (p : piece) : AudioSegment :=
  match p with
  | Silence silence_duration => seg_silent silence_duration
  | Clip segment_audio => segment_audio
  end.

(** The duration of a part as the loop knows it: the milliseconds that the
    silence was made for, the length of the clip. *)
Definition piece_ms (p : piece) : Z :=
  match p with
  | Silence silence_duration => silence_duration
  | Clip segment_audio => seg_len segment_audio
  end.

(** The parts of one iteration, for the clip that it loads. *)
Definition step_pieces (st : mix_state) (seg : segment)
    (segment_audio : AudioSegment) : list piece :=
  (if 20 <? gap_to st seg then [Silence (gap_to st seg)] else [])
  ++ [Clip (faded segment_audio)].

(** The parts of the loop run from [st], in the order in which they are
    appended. *)
Fixpoint pieces (st : mix_state) (segments : list segment) : list piece :=
  match segments with
  | [] => []
  | seg :: rest =>
      match from_wav (final_audio_file seg), add_segment st seg with
      | Some segment_audio, Some st' =>
          step_pieces st seg segment_audio ++ pieces st' rest
      | _, _ => []
      end
  end.

(** [track + p1 + ... + pn]. *)
Definition join_pieces (track : AudioSegment) (ps : list piece) : AudioSegment :=
  fold_left (fun joined p => seg_add joined (piece_audio p)) ps track.

Definition pieces_ms (ps : list piece) : Z :=
  fold_right (fun p total => piece_ms p + total) 0 ps.

End Assembler.

End TrackAssembler.

(** ** A concrete audio segment: one amplitude per millisecond

    Audio at one frame rate of 1000 Hz throughout, silence included, so that
    nothing is resampled and every length is a whole number of frames. *)

Module MsFrames.

Definition frames := list Z.

(** A linear gain ramp over the first [d] frames, counted from frame [i]. *)
Fixpoint ramp (i d : Z) (a : frames) : frames :=
  match a with
  | [] => []
  | x :: rest => (if i <? d then x * i / d else x) :: ramp (i + 1) d rest
  end.

Definition ms_fade_in (d : Z) (a : frames) : frames := ramp 0 d a.

Definition ms_fade_out (d : Z) (a : frames) : frames := rev (ramp 0 d (rev a)).

Definition ms_silent (d : Z) : frames := repeat 0 (Z.to_nat d).

Definition ms_len (a : frames) : Z := Z.of_nat (length a).

#[export] Instance ms_frames : Pydub :=
  {| AudioSegment := frames;
     seg_empty := [];
     seg_silent := ms_silent;
     seg_add := @app Z;
     seg_len := ms_len;
     fade_in := ms_fade_in;
     fade_out := ms_fade_out;
     len_nonneg := fun a => Nat2Z.is_nonneg (length a) |}.

(** A clip of [n] milliseconds of constant amplitude. *)
Definition tone (n : nat) : frames := repeat 1000 n.

(** A file store given by the list of its files. *)
Fixpoint lookup_file {A : Type} (files : list (string * A)) (path : string)
  : option A :=
  match files with
  | [] => None
  | (name, content) :: rest =>
      if String.eqb name path then Some content else lookup_file rest path
  end.

End MsFrames.

(** ** Concrete sessions *)

Module Sessions.
Import PyStr PyPath DurationFitter TrackAssembler MsFrames.

(** A disk on which the two directories of the generator exist and are
    empty: a file or a directory can be made directly under an existing
    directory, and nowhere else. *)
Definition directly_under (dir path : string) : bool :=
  let p := of_string path in
  match path_root p, rev (path_parts p) with
  | [], _ :: parents =>
      String.eqb (string_of_list_ascii (str_join slash (rev parents))) dir
  | _, _ => false
  end.

Definition disk_export (path : string) (track : frames) : bool :=
  directly_under "data/output" path.

Definition disk_mkdir (dir : string) : bool :=
  directly_under "data/audio_segments" dir.

(** The clips on disk: named by their length in milliseconds. *)
Definition clips_on_disk : string -> option frames :=
  lookup_file [("clip_1000.wav", tone 1000); ("clip_400.wav", tone 400);
               ("clip_100.wav", tone 100); ("clip_0.wav", tone 0)]%string.

Definition seg (index : Z) (start file : string) : segment :=
  {| segment_index := index; start_time := start; final_audio_file := file |}.

(** Three segments at 0 ms, 2000 ms and 2500 ms, of 1 s, 1 s and 0.4 s: the
    third one starts before the second one ends. *)
Definition overlap_session : list segment :=
  [seg 0 "00:00:000" "clip_1000.wav"; seg 1 "00:02:000" "clip_1000.wav";
   seg 2 "00:02:500" "clip_400.wav"].

(** One segment of 100 ms whose slot starts at 10 ms. *)
Definition late_start_session : list segment :=
  [seg 0 "00:00:010" "clip_100.wav"].

(** Two segments of 100 ms with slots at 10 ms and 120 ms. *)
Definition small_gaps_session : list segment :=
  [seg 0 "00:00:010" "clip_100.wav"; seg 1 "00:00:120" "clip_100.wav"].

(** Three segments of 100 ms with slots at 0 ms, 50 ms and 120 ms. *)
Definition crowded_session : list segment :=
  [seg 0 "00:00:000" "clip_100.wav"; seg 1 "00:00:050" "clip_100.wav";
   seg 2 "00:00:120" "clip_100.wav"].

(** One segment whose clip has no frames. *)
Definition empty_clip_session : list segment :=
  [seg 0 "00:00:000" "clip_0.wav"].

(** Two segments separated by a gap of 500 ms, given out of order. *)
Definition spaced_session : list segment :=
  [seg 1 "00:01:500" "clip_400.wav"; seg 0 "00:00:000" "clip_1000.wav"].

(** The state of the loop after the first [n] segments of a session. *)
Definition state_after (n : nat) (session : list segment) : option mix_state :=
  combine_loop clips_on_disk initial_state (firstn n (sort_by_index session)).

(** The loop after the first clip of [crowded_session]: a track of 100 ms
    and the cursor at 100 ms. *)
Definition one_clip_state : mix_state :=
  {| combined_audio := seg_add seg_empty (faded (tone 100));
     last_end_time := 100 |}.

(** The double that the literal [0.7] denotes. *)
Definition seven_tenths : Q := binary64 (7 # 10).

(** A stand-in for the phase vocoder that has the output length of the
    library, [round(len(y) / rate)] samples, cut from or padded after [y]. *)
Definition resampling_stretch (y : waveform) (rate : Q) : option waveform :=
  Some (fix_length y
          (round_half_even (inject_Z (Z.of_nat (length y)) / rate)%Q)).


(** One second of raw speech at 24 kHz, and a raw clip of three samples. *)
Definition raw_files : string -> option wav_file :=
  lookup_file [("segment_0000_raw.wav", (repeat (1 # 2)%Q (Z.to_nat 24000), 24000));
               ("segment_0001_raw.wav", ([1 # 2; 1 # 3; 1 # 4]%Q, 24000))]%string.

Definition fit_raw (input_file : string) (target_duration : Q) : fit_outcome :=
  _adjust_audio_speed raw_files resampling_stretch input_file
    "segment_adjusted.wav" target_duration.

End Sessions.

(** ** Measures of an assembly run *)

From Stdlib Require Import Sorted Lqa.

Module AssemblerMeasures.
Import TrackAssembler.

(** Segments in the order of their indices. *)
Definition index_le (a b : segment) : Prop := segment_index a <= segment_index b.

End AssemblerMeasures.

(** ** More concrete sessions *)

Module MoreSessions.
Import TrackAssembler MsFrames Sessions.

(** Two segments, the second of which names a file that is not on disk. *)
Definition broken_session : list segment :=
  [seg 0 "00:00:000" "clip_100.wav"; seg 1 "00:01:000" "missing.wav"].

End MoreSessions.

(** ** Stored files *)

Module FileStore.

(** The store after [content] is written under [path]. *)
Definition write_file {A : Type} (store : string -> option A) (path : string)
    (content : A) : string -> option A :=
  fun p => if String.eqb p path then Some content else store p.

End FileStore.

(** ** Well-formed fields of a timestamp *)

Module TimeFields.
Import PyStr.

(** A field that can stand between colons: it contains none. *)
Definition no_colon (f : str) : bool :=
  forallb (fun c => negb (Ascii.eqb c colon)) f.

Definition minus : ascii := "-"%char.

(** A timestamp whose last field has one digit more than [int] converts. *)
Definition long_ms_field : str := repeat "1"%char 4301.

Definition long_ms_text : string :=
  string_of_list_ascii (of_string "00:00:" ++ long_ms_field).

(** The separator of code point 28, white space for [str.strip] only. *)
Definition file_separator : ascii := ascii_of_nat 28.

End TimeFields.

(** ** Voice assignment (config/voices.py) *)

Module Voices.

(** The table of voices, in the order of the dictionary. *)
Definition SPEAKER_STYLES : list (string * string) :=
  [("alloy", "female"); ("ash", "male"); ("ballad", "male");
   ("coral", "female"); ("echo", "male"); ("fable", "female");
   ("onyx", "male"); ("nova", "female"); ("sage", "female");
   ("shimmer", "female"); ("verse", "male")]%string.

(** [s.lower()] on code points below 256: the letters A to Z and the
    accented capitals from 192 to 222, the sign 215 apart, move up by 32. *)
Definition lower_char (c : ascii) : ascii :=
  let n := N_of_ascii c in
  if ((65 <=? n) && (n <=? 90))%N
     || ((192 <=? n) && (n <=? 222) && negb (n =? 215))%N
  then ascii_of_N (n + 32) else c.

Fixpoint lower (s : string) : string :=
  match s with
  | EmptyString => EmptyString
  | String c rest => String (lower_char c) (lower rest)
  end.

(** [s.strip()]: white space removed at both ends. *)
Definition strip (s : string) : string :=
  string_of_list_ascii
    (rev (PyStr.lstrip (rev (PyStr.lstrip (list_ascii_of_string s))))).

(** [x in xs] on texts. *)
Definition mem (x : string) (xs : list string) : bool :=
  existsb (String.eqb x) xs.

(** The dictionary [speaker_voice_mapping]: its items in insertion order,
    with one item for each key. *)
Definition voice_map := list (string * string).

Fixpoint lookup {A : Type} (m : list (string * A)) (key : string) : option A :=
  match m with
  | [] => None
  | (k, v) :: rest => if String.eqb k key then Some v else lookup rest key
  end.

Definition values (m : voice_map) : list string := map snd m.

Definition get_all_voices : list string := map fst SPEAKER_STYLES.

(** The comprehension of [get_voices_by_gender] over a table; [None] is the
    [TypeError] of [name not in restricted] when [restricted] is [None],
    which is evaluated only for a voice of the requested gender. *)
Fixpoint voices_by_gender (styles : list (string * string)) (gender : string)
    (restricted : option (list string)) : option (list string) :=
  match styles with
  | [] => Some []
  | (name, g) :: rest =>
      if String.eqb (lower g) (lower gender) then
        match restricted with
        | None => None
        | Some used =>
            match voices_by_gender rest gender restricted with
            | None => None
            | Some others =>
                Some (if mem name used then others else name :: others)
            end
        end
      else voices_by_gender rest gender restricted
  end.

Definition get_voices_by_gender (gender : string)
    (restricted : option (list string)) : option (list string) :=
  voices_by_gender SPEAKER_STYLES gender restricted.

(** [random.choice(seq)]: the element at an index below [len(seq)], here the
    index that the draw [pick] gives; [None] is the [IndexError] on an
    empty sequence. *)
Definition choice (pick : nat) (seq : list string) : option string :=
  nth_error seq (pick mod length seq).

(** [assign_voice_to_speaker]: the value returned ([None] of the language
    when the function ends without [return]) and the dictionary after the
    call; the outer [None] is a raised exception. *)
Definition assign_voice_to_speaker (m : voice_map) (speaker_id gender : string)
    (restricted : option (list string)) (pick : nat)
  : option (option string * voice_map) :=
  match lookup m speaker_id with
  | Some voice => Some (Some voice, m)
  | None =>
      match get_voices_by_gender gender restricted with
      | None => None
      | Some available_voices =>
          let available_voices :=
            match available_voices with
            | [] => get_all_voices
            | _ :: _ => available_voices
            end in
          match choice pick available_voices with
          | None => None
          | Some selected_voice =>
              Some (None, m ++ [(speaker_id, selected_voice)])
          end
      end
  end.

(** A speaker profile of the transcript: the keys that the pipeline reads,
    [None] for a key that is absent. *)
Record speaker_profile : Type := {
  profile_speaker_id : option string;
  profile_gender : option string;
  profile_tts_instruction_key : option (list (string * string))
}.

(** How a call of [get_speaker_voices] ends, with the dictionary of the
    selector at that point. *)
Inductive voices_outcome : Type :=
| Returned (m : voice_map)
| Raised (m : voice_map).

Definition mapping_of (r : voices_outcome) : voice_map :=
  match r with Returned m => m | Raised m => m end.

(** The loop of [get_speaker_voices] from the speaker at position [i]; the
    draw of the iteration at position [i] is [pick i]. *)
Fixpoint speaker_voices_from (i : nat) (pick : nat -> nat) (m : voice_map)
    (speakers_info : list speaker_profile) : voices_outcome :=
  match speakers_info with
  | [] => Returned m
  | speaker :: rest =>
      let restricted := values m in
      match profile_speaker_id speaker, profile_gender speaker with
      | Some id, Some gender =>
          match assign_voice_to_speaker m (strip id) (lower gender)
                  (Some restricted) (pick i) with
          | Some (_, m') => speaker_voices_from (S i) pick m' rest
          | None => Raised m
          end
      | _, _ => Raised m      (* AttributeError on None *)
      end
  end.

Definition get_speaker_voices (pick : nat -> nat) (m : voice_map)
    (speakers_info : list speaker_profile) : voices_outcome :=
  speaker_voices_from 0 pick m speakers_info.

(** *** Quantities used to state the properties *)

Definition gender_of (voice : string) : option string :=
  lookup SPEAKER_STYLES voice.

Definition has_gender (gender voice : string) : bool :=
  match gender_of voice with
  | Some g => String.eqb g gender
  | None => false
  end.

(** The number of profiles whose gender reads as [gender]. *)
Definition profiles_of_gender (gender : string)
    (speakers_info : list speaker_profile) : nat :=
  length (filter (fun p => match profile_gender p with
                           | Some g => String.eqb (lower g) gender
                           | None => false
                           end) speakers_info).

Definition voices_of_gender (gender : string) (m : voice_map) : nat :=
  length (filter (has_gender gender) (values m)).

Definition binary_gender (p : speaker_profile) : bool :=
  match profile_gender p with
  | Some g => String.eqb (lower g) "male" || String.eqb (lower g) "female"
  | None => false
  end.

(** Every voice in the dictionary is a voice of the table. *)
Definition known_voices (m : voice_map) : Prop :=
  Forall (fun v => In v get_all_voices) (values m).

Definition profile (id gender : string) : speaker_profile :=
  {| profile_speaker_id := Some id; profile_gender := Some gender;
     profile_tts_instruction_key := Some [] |}.

(** Three speakers, one of them listed twice with white space around its
    name. *)
Definition cast : list speaker_profile :=
  [profile "Speaker 1" "Male"; profile "Speaker 2" "Female";
   profile " Speaker 1 " "male"; profile "Speaker 3" "MALE"]%string.

End Voices.

(** ** The audio generator (src/audio_generator.py) as a whole *)

From Stdlib Require Decimal DecimalString DecimalNat.

Module AudioGenerator.
Import Voices PyPath DurationFitter TrackAssembler FileStore.

(** A segment of the transcript: the keys that the generator reads, [None]
    for a key that is absent. *)
Record dub_segment : Type := {
  d_speaker_id : option string;
  d_translated_text : option string;
  d_start_time : option string;
  d_end_time : option string;
  d_duration_seconds : option Q
}.

(** The transcript: its two lists, empty when the key is absent. *)
Record transcript : Type := {
  speaker_profiles : list speaker_profile;
  dubbing_segments : list dub_segment
}.

(** [d.get(key, default)] on a key that may be absent. *)
Definition get_or {A : Type} (value : option A) (default : A) : A :=
  match value with Some v => v | None => default end.

(** [d[key] = value] on a dictionary given by its items: the value of a key
    that is present is replaced where it is, a new key comes last. *)
Fixpoint dict_set {A : Type} (d : list (string * A)) (key : string) (value : A)
  : list (string * A) :=
  match d with
  | [] => [(key, value)]
  | (k, v) :: rest =>
      if String.eqb k key then (k, value) :: rest
      else (k, v) :: dict_set rest key value
  end.

(** The comprehension [{speaker['speaker_id']: speaker['tts_instruction_key']
    for speaker in speaker_profiles}]; [None] is the [KeyError] of an absent
    key. *)
Fixpoint speaker_tts_mapping_from (d : list (string * list (string * string)))
    (profiles : list speaker_profile)
  : option (list (string * list (string * string))) :=
  match profiles with
  | [] => Some d
  | speaker :: rest =>
      match profile_speaker_id speaker, profile_tts_instruction_key speaker with
      | Some id, Some key => speaker_tts_mapping_from (dict_set d id key) rest
      | _, _ => None
      end
  end.

Definition newline : string := String (ascii_of_nat 10) EmptyString.

(** ["\n\n".join(f"{k}: {v}" for k, v in prosody.items())]. *)
Fixpoint tts_instruction_of (prosody : list (string * string)) : string :=
  match prosody with
  | [] => EmptyString
  | (k, v) :: rest =>
      match rest with
      | [] => (k ++ ": " ++ v)%string
      | _ :: _ =>
          (k ++ ": " ++ v ++ newline ++ newline ++ tts_instruction_of rest)%string
      end
  end.

(** [f"{i:04d}"] for an index that is not negative: its decimal digits,
    with zeros on the left up to four characters. *)
Definition format_04d (i : nat) : string :=
  let digits := DecimalString.NilEmpty.string_of_uint (Nat.to_uint i) in
  (string_of_list_ascii (repeat "0"%char (4 - String.length digits)) ++ digits)%string.

(** [self.audio_segments_dir], set to [Path("data/audio_segments")] by the
    constructor, and the directory [self.audio_segments_dir / session_id]
    of a session. *)
Definition audio_segments_dir : string := "data/audio_segments".

Definition session_dir_of (session_id : string) : string :=
  path_join audio_segments_dir session_id.

(** The two files of a segment in the directory of the session: the path
    [session_dir / f"segment_{i:04d}_raw.wav"] and its adjusted sibling, for
    a session directory that is not the root. *)
Definition raw_file_of (session_dir : string) (i : nat) : string :=
  (session_dir ++ "/segment_" ++ format_04d i ++ "_raw.wav")%string.

Definition adjusted_file_of (session_dir : string) (i : nat) : string :=
  (session_dir ++ "/segment_" ++ format_04d i ++ "_adjusted.wav")%string.

(** A request sent to the speech synthesis: text, voice, instructions. *)
Definition tts_request := (string * string * string)%type.

(** What the generator changes outside itself: the stored audio files, the
    requests sent to the speech synthesis and the pauses taken (in seconds),
    both in the order in which they happen. *)
Record world : Type := {
  store : string -> option wav_file;
  tts_requests : list tts_request;
  pauses : list Z
}.

(** The dictionary returned for a generated segment: the entries that the
    assembler reads, and the others. *)
Record generated : Type := {
  as_segment : segment;
  g_speaker : string;
  g_voice_name : string;
  g_text : string;
  g_target_duration : Q;
  g_raw_audio_file : string
}.

Inductive segment_result : Type :=
| Generated (g : generated)
| NotGenerated (error : string).

Section Generator.

Context {P : Pydub}.

(** [_call_openai_tts]: the bytes of the answer, [None] when the call
    raises. *)
Variable call_tts : tts_request -> option string.

(** The file that [_save_wave_file] leaves for the bytes it is given, as
    [librosa.load] reads it; [None] when the saving fails, which is printed
    and not raised. *)
Variable saved_wave : string -> option wav_file.

Variable time_stretch : waveform -> Q -> option waveform.

(** A stored file as [AudioSegment.from_wav] reads it. *)
Variable to_audio_segment : wav_file -> AudioSegment.

(** [session_dir.mkdir(exist_ok=True)]: whether the directory is there
    afterwards; [false] when the call raises, as it does when the parent of
    the directory does not exist. *)
Variable make_dir : string -> bool.

(** [audio.export(path, format="wav")]; [false] when it raises. *)
Variable export_wav : string -> AudioSegment -> bool.

Definition _generate_segment_audio (w : world) (seg : dub_segment)
    (voice_assignments : voice_map)
    (speaker_profiles : list (string * list (string * string)))
    (session_dir : string) (segment_index : nat) : segment_result * world :=
  let speaker := get_or (d_speaker_id seg) "Speaker 1"%string in
  let text := get_or (d_translated_text seg) EmptyString in
  let start_time := get_or (d_start_time seg) "00:00:00.000"%string in
  let target_duration := get_or (d_duration_seconds seg) 0%Q in
  let prosody := get_or (lookup speaker_profiles speaker) [] in
  let tts_instruction := tts_instruction_of prosody in
  if String.eqb (strip text) EmptyString
  then (NotGenerated "Empty text segment", w)
  else
    let voice_name := get_or (lookup voice_assignments speaker) "onyx"%string in
    let request := (text, voice_name, tts_instruction) in
    let w1 := {| store := store w;
                 tts_requests := tts_requests w ++ [request];
                 pauses := pauses w |} in
    match call_tts request with
    | None => (NotGenerated "TTS generation failed", w1)
    | Some audio_data =>
        if String.eqb audio_data EmptyString
        then (NotGenerated "TTS generation failed", w1)
        else
          let raw_audio_file := raw_file_of session_dir segment_index in
          let adjusted_audio_file :=
            adjusted_file_of session_dir segment_index in
          let saved :=
            match saved_wave audio_data with
            | Some file => write_file (store w1) raw_audio_file file
            | None => store w1
            end in
          let fitted :=
            if negb (Qle_bool target_duration 0) then
              match saved raw_audio_file,
                    _adjust_audio_speed saved time_stretch raw_audio_file
                      adjusted_audio_file target_duration with
              | Some (_, sr), Fitted _ y_fixed =>
                  write_file saved adjusted_audio_file (y_fixed, sr)
              | _, _ => saved
              end
            else saved in
          (Generated
             {| as_segment :=
                  {| segment_index := Z.of_nat segment_index;
                     start_time := start_time;
                     final_audio_file :=
                       DurationFitter._generate_segment_audio saved
                         time_stretch raw_audio_file adjusted_audio_file
                         target_duration |};
                g_speaker := speaker;
                g_voice_name := voice_name;
                g_text := text;
                g_target_duration := target_duration;
                g_raw_audio_file := raw_audio_file |},
           {| store := fitted;
              tts_requests := tts_requests w1;
              pauses := pauses w1 |})
    end.

(** The loop over [enumerate(dubbing_segments)], from position [i]. *)
Fixpoint generate_from (i : nat) (w : world) (generated_segments : list generated)
    (voice_assignments : voice_map)
    (speaker_tts_mapping : list (string * list (string * string)))
    (session_dir : string) (segments : list dub_segment)
  : list generated * world :=
  match segments with
  | [] => (generated_segments, w)
  | seg :: rest =>
      let w :=
        if (0 <? i)%nat && (i mod 20 =? 0)%nat
        then {| store := store w; tts_requests := tts_requests w;
                pauses := pauses w ++ [70] |}
        else w in
      let '(segment_result, w') :=
        _generate_segment_audio w seg voice_assignments speaker_tts_mapping
          session_dir i in
      let generated_segments :=
        match segment_result with
        | Generated g => generated_segments ++ [g]
        | NotGenerated _ => generated_segments
        end in
      generate_from (S i) w' generated_segments voice_assignments
        speaker_tts_mapping session_dir rest
  end.

(** The dictionary that [generate_audio_from_transcript] returns, with what
    the call left outside: the world, the dictionary of the voice selector
    and the exported track. *)
Record audio_result : Type := {
  success : bool;
  generated_segments : list generated;
  final_audio_path : string;
  voice_assignments : voice_map;
  total_segments : nat;
  world_after : world;
  selector_after : voice_map;
  exported_track : option (string * AudioSegment)
}.

Definition failed_result (w : world) (selector : voice_map) : audio_result :=
  {| success := false; generated_segments := []; final_audio_path := EmptyString;
     voice_assignments := []; total_segments := 0; world_after := w;
     selector_after := selector; exported_track := None |}.

Definition generate_audio_from_transcript (pick : nat -> nat) (w : world)
    (selector : voice_map) (transcript_data : transcript) (session_id : string)
  : audio_result :=
  let session_dir := session_dir_of session_id in
  if negb (make_dir session_dir) then failed_result w selector  (* OSError *)
  else
  match speaker_tts_mapping_from [] (speaker_profiles transcript_data) with
  | None => failed_result w selector                        (* KeyError *)
  | Some speaker_tts_mapping =>
      match get_speaker_voices pick selector
              (speaker_profiles transcript_data) with
      | Voices.Raised selector' => failed_result w selector'
      | Voices.Returned voice_assignments =>
          let '(generated_segments, w') :=
            generate_from 0 w [] voice_assignments speaker_tts_mapping
              session_dir (dubbing_segments transcript_data) in
          let combined :=
            _combine_audio_segments
              (fun path => option_map to_audio_segment (store w' path))
              export_wav (map as_segment generated_segments) session_id in
          {| success := true;
             generated_segments := generated_segments;
             final_audio_path := returned_path combined;
             voice_assignments := voice_assignments;
             total_segments := length generated_segments;
             world_after := w';
             selector_after := voice_assignments;
             exported_track := exported combined |}
      end
  end.

End Generator.

(** The index of a generated segment, as a position in the transcript. *)
Definition index_of (g : generated) : Z := segment_index (as_segment g).

(** A text that the generator does not send to the speech synthesis. *)
Definition blank (text : string) : bool := String.eqb (strip text) EmptyString.

End AudioGenerator.

(** ** A concrete dubbing session *)

Module Studio.
Import Voices DurationFitter TrackAssembler MsFrames AudioGenerator.

(** A speech synthesis that fails on the text "fail" and answers nothing
    for the text "mute". *)
Definition studio_tts (request : tts_request) : option string :=
  let '(text, _, _) := request in
  if String.eqb text "fail" then None
  else if String.eqb text "mute" then Some EmptyString
  else Some "RIFF"%string.

(** Every answer is stored as 300 samples at 1000 Hz. *)
Definition studio_saved (audio_data : string) : option wav_file :=
  Some (repeat (1 # 2)%Q 300, 1000).

(** One frame for each millisecond of the stored file. *)
Definition studio_segment (file : wav_file) : frames :=
  tone (Z.to_nat (Z.of_nat (length (fst file)) * 1000 / snd file)).

Definition silent_world : world :=
  {| store := fun _ => None; tts_requests := []; pauses := [] |}.

Definition line (speaker text start : string) (duration : Q) : dub_segment :=
  {| d_speaker_id := Some speaker; d_translated_text := Some text;
     d_start_time := Some start; d_end_time := None;
     d_duration_seconds := Some duration |}.

(** Four lines: one to fit, one blank, one that the synthesis fails on, and
    one of a speaker written with white space and without a duration. *)
Definition script : transcript :=
  {| speaker_profiles := cast;
     dubbing_segments :=
       [line "Speaker 1" "Hello" "00:00:000" (1 # 2);
        line "Speaker 2" "   " "00:00:600" (1 # 2);
        line "Speaker 2" "fail" "00:00:700" (1 # 2);
        line " Speaker 1 " "Bye" "00:01:000" 0]%string |}.

(** A transcript without any text to speak. *)
Definition silent_script : transcript :=
  {| speaker_profiles := cast;
     dubbing_segments := [line "Speaker 1" " " "00:00:000" (1 # 2)]%string |}.

(** A run on the disk of [Sessions], under a session identifier. *)
Definition studio_session (session_id : string) (t : transcript) : audio_result :=
  generate_audio_from_transcript (P := ms_frames) studio_tts studio_saved
    Sessions.resampling_stretch studio_segment Sessions.disk_mkdir
    Sessions.disk_export (fun i => i * 7)%nat silent_world [] t session_id.

Definition studio_run (t : transcript) : audio_result :=
  studio_session "demo" t.

(** Forty-one lines of one speaker, half a second each. *)
Definition long_script : transcript :=
  {| speaker_profiles := cast;
     dubbing_segments :=
       repeat (line "Speaker 2" "Hello" "00:00:000" (1 # 2))%string 41 |}.


(** The segment generated for the last line of [script]. *)
Definition last_generated : generated :=
  {| as_segment :=
       {| segment_index := 3; start_time := "00:01:000";
          final_audio_file :=
            "data/audio_segments/demo/segment_0003_raw.wav" |};
     g_speaker := " Speaker 1 "; g_voice_name := "onyx"; g_text := "Bye";
     g_target_duration := 0;
     g_raw_audio_file := "data/audio_segments/demo/segment_0003_raw.wav" |}.

End Studio.

(** ** Measures of a generator run *)

Module GeneratorMeasures.
Import Voices AudioGenerator.

(** The loop pauses before the segment at position [i]. *)
Definition pause_due (i : nat) : bool := (0 <? i)%nat && (i mod 20 =? 0)%nat.

(** The world in which the segment at position [i] is generated. *)
Definition paused (i : nat) (w : world) : world :=
  if pause_due i
  then {| store := store w; tts_requests := tts_requests w;
          pauses := pauses w ++ [70] |}
  else w.

(** A profile with the three keys that the generator reads. *)
Definition complete_profile (p : speaker_profile) : bool :=
  match profile_speaker_id p, profile_gender p, profile_tts_instruction_key p with
  | Some _, Some _, Some _ => true
  | _, _, _ => false
  end.

(** The text of a segment and whether it is sent to the speech synthesis. *)
Definition text_of (seg : dub_segment) : string :=
  get_or (d_translated_text seg) EmptyString.

Definition speaker_of (seg : dub_segment) : string :=
  get_or (d_speaker_id seg) "Speaker 1"%string.

Definition spoken (seg : dub_segment) : bool := negb (blank (text_of seg)).

Definition request_text (request : tts_request) : string :=
  fst (fst request).

(** Every key of the dictionary is a name without white space around it. *)
Definition stripped_keys (m : voice_map) : Prop :=
  Forall (fun item => strip (fst item) = fst item) m.

(** A text that does not begin with white space. *)
Definition head_not_space (l : PyStr.str) : Prop :=
  match l with [] => True | c :: _ => PyStr.is_space c = false end.

End GeneratorMeasures.

(** ** Transcript validation (src/asr_processor.py) and the pipeline
    (main.py) *)

Module Pipeline.
Import Voices DurationFitter TrackAssembler AudioGenerator.

(** [_validate_transcript] on a transcript whose two lists hold dictionaries:
    the keys that are absent get their default, the others are left as they
    are. *)
Definition validate_profile (speaker_info : speaker_profile) : speaker_profile :=
  {| profile_speaker_id := profile_speaker_id speaker_info;
     profile_gender := Some (get_or (profile_gender speaker_info) "male"%string);
     profile_tts_instruction_key :=
       Some (get_or (profile_tts_instruction_key speaker_info) []) |}.

Definition validate_segment (segment : dub_segment) : dub_segment :=
  {| d_speaker_id := Some (get_or (d_speaker_id segment) "Speaker 1"%string);
     d_translated_text := Some (get_or (d_translated_text segment) EmptyString);
     d_start_time := d_start_time segment;
     d_end_time := d_end_time segment;
     d_duration_seconds := d_duration_seconds segment |}.

Definition _validate_transcript (transcript_data : transcript) : transcript :=
  {| speaker_profiles := map validate_profile (speaker_profiles transcript_data);
     dubbing_segments := map validate_segment (dubbing_segments transcript_data) |}.

(** A call of the muxer: video path, audio path, output file name. *)
Definition mux_call := (string * string * string)%type.

(** The dictionary that [process_video] returns, as far as the flow of the
    pipeline shows in it, with the calls made to the muxer. *)
Record pipeline_result : Type := {
  p_success : bool;
  p_error_message : option string;
  p_final_video_path : option string;
  p_dubbed_audio_path : option string;
  p_mux_calls : list mux_call
}.

Definition error_result (message : string) (calls : list mux_call)
  : pipeline_result :=
  {| p_success := false; p_error_message := Some message;
     p_final_video_path := None; p_dubbed_audio_path := None;
     p_mux_calls := calls |}.

Section Pipeline.

Context {P : Pydub}.

(** The collaborators: [prepare_video] gives the path of the video, the
    transcription model gives the parsed transcript, the muxer gives the
    path of its output; [None] is a result without success.  [stem] is
    [Path(p).stem]. *)
Variable prepare_video : string -> option string.
Variable transcribe : string -> string -> string -> option transcript.
Variable combine_video_with_audio : mux_call -> option string.
Variable stem : string -> string.

(** The identifier [f"dubbing_{int(time.time())}"] that the clock gives. *)
Variable clock_session_id : string.

Variable call_tts : tts_request -> option string.
Variable saved_wave : string -> option wav_file.
Variable time_stretch : waveform -> Q -> option waveform.
Variable to_audio_segment : wav_file -> AudioSegment.
Variable make_dir : string -> bool.
Variable export_wav : string -> AudioSegment -> bool.
Variable pick : nat -> nat.

(** The session identifier of a run: the one given, the one of the clock
    when none or the empty one is given. *)
Definition session_id_or_clock (session_id : option string) : string :=
  match session_id with
  | Some id => if String.eqb id EmptyString then clock_session_id else id
  | None => clock_session_id
  end.

(** [process_youtube_url_for_transcript], as far as the transcript goes: the
    answer of the model, validated. *)
Definition process_youtube_url_for_transcript (youtube_url target_language
    video_context : string) : option transcript :=
  option_map _validate_transcript
    (transcribe youtube_url target_language video_context).

Definition process_video (w : world) (selector : voice_map)
    (video_source target_language video_context : string)
    (output_filename : option string) (session_id : option string)
  : pipeline_result :=
  let session_id := session_id_or_clock session_id in
  match prepare_video video_source with
  | None => error_result "Video preparation failed" []
  | Some video_path =>
      match process_youtube_url_for_transcript video_source target_language
              video_context with
      | None => error_result "Transcript generation failed" []
      | Some transcript_data =>
          let audio_result :=
            generate_audio_from_transcript call_tts saved_wave time_stretch
              to_audio_segment make_dir export_wav pick w selector
              transcript_data session_id in
          if negb (success audio_result)
          then error_result "Audio generation failed" []
          else
            let dubbed_audio_path := final_audio_path audio_result in
            let output_filename :=
              match output_filename with
              | Some name =>
                  if String.eqb name EmptyString
                  then (stem video_path ++ "_dubbed_" ++ lower target_language
                        ++ ".mp4")%string
                  else name
              | None =>
                  (stem video_path ++ "_dubbed_" ++ lower target_language
                   ++ ".mp4")%string
              end in
            let call := (video_path, dubbed_audio_path, output_filename) in
            match combine_video_with_audio call with
            | None => error_result "Video combination failed" [call]
            | Some final_video_path =>
                {| p_success := true; p_error_message := None;
                   p_final_video_path := Some final_video_path;
                   p_dubbed_audio_path := Some dubbed_audio_path;
                   p_mux_calls := [call] |}
            end
      end
  end.

End Pipeline.

End Pipeline.

(** ** A concrete pipeline *)

Module Premiere.
Import Voices AudioGenerator Pipeline MsFrames Studio.

(** A transcript as the model may answer it: complete profiles and a line
    without speaker and text. *)
Definition bare_script : transcript :=
  {| speaker_profiles := cast;
     dubbing_segments :=
       [{| d_speaker_id := None; d_translated_text := None;
           d_start_time := Some "00:00:000"%string; d_end_time := None;
           d_duration_seconds := Some (1 # 2) |}] |}.

(** A run of the pipeline on the disk of [Sessions], under a session
    identifier. *)
Definition premiere_session (session_id : string) (answer : transcript)
  : pipeline_result :=
  process_video (P := ms_frames)
    (fun source => Some source) (fun _ _ _ => Some answer)
    (fun call => Some "data/output/film_dubbed_hindi.mp4"%string)
    (fun path => "film"%string) "dubbing_1700000000"
    studio_tts studio_saved Sessions.resampling_stretch studio_segment
    Sessions.disk_mkdir Sessions.disk_export
    (fun i => i * 7)%nat silent_world [] "film.mp4" "Hindi" EmptyString None
    (Some session_id).

Definition premiere (answer : transcript) : pipeline_result :=
  premiere_session "demo" answer.

End Premiere.

(** * Properties *)

(** ** Texts and integers *)

Module PyStrFacts.
Import PyStr.

Lemma digit_not_space (c : ascii) :
  is_digit c = true -> is_int_space c = false.
Proof.
  destruct c as [[] [] [] [] [] [] [] []]; vm_compute; congruence.
Qed.

Lemma digit_not_sign (c : ascii) :
  is_digit c = true ->
  Ascii.eqb c "-"%char = false /\ Ascii.eqb c "+"%char = false.
Proof.
  destruct c as [[] [] [] [] [] [] [] []]; vm_compute; split; congruence.
Qed.

Lemma digit_not_sep (c : ascii) : is_digit c = true -> Ascii.eqb c colon = false.
Proof.
  destruct c as [[] [] [] [] [] [] [] []]; vm_compute; congruence.
Qed.

Lemma is_digit_value (c : ascii) :
  is_digit c = true -> exists d, digit_of c = Some d /\ 0 <= d <= 9.
Proof.
  unfold is_digit, digit_of.
  destruct (_ && _) eqn:E; [|discriminate]. intros _.
  apply andb_prop in E. destruct E as [E1 E2].
  apply Z.leb_le in E1, E2. eexists. split; [reflexivity|lia].
Qed.

Lemma int_digits_all_digits (s : str) :
  forall acc prev,
    all_digits s = true -> s <> [] \/ prev = true ->
    int_digits acc prev s = Some (fold_left shift_in s acc).
Proof.
  induction s as [|c s IH]; intros acc prev Hd Hne.
  - destruct Hne as [Hne | ->]; [congruence|reflexivity].
  - simpl in Hd. apply andb_prop in Hd. destruct Hd as [Hc Hs].
    destruct (is_digit_value c Hc) as [d [Hd _]].
    simpl. unfold shift_in at 2. rewrite Hd.
    apply IH; [exact Hs|now right].
Qed.

Lemma count_digits_le (s : str) : count_digits s <= Z.of_nat (length s).
Proof.
  unfold count_digits. apply inj_le.
  induction s as [|c s IH]; simpl; [lia|].
  destruct (is_digit c); simpl; lia.
Qed.

Lemma count_digits_all (s : str) :
  all_digits s = true -> count_digits s = Z.of_nat (length s).
Proof.
  unfold count_digits. intros H. f_equal.
  induction s as [|c s IH]; [reflexivity|].
  simpl in *. apply andb_prop in H. destruct H as [Hc Hs].
  rewrite Hc. simpl. now rewrite IH.
Qed.

(** [int] reads a non-empty text of digits as the number it denotes, as long
    as the digits are not more than it converts. *)
Lemma py_int_all_digits (s : str) :
  all_digits s = true -> s <> [] ->
  Z.of_nat (length s) <= int_max_str_digits ->
  py_int s = Some (decimal_value s).
Proof.
  intros Hd Hne Hlen. destruct s as [|c s]; [congruence|].
  pose proof Hd as Hd'. simpl in Hd'. apply andb_prop in Hd'.
  destruct Hd' as [Hc _].
  unfold py_int. pose proof (count_digits_le (c :: s)) as Hcount.
  destruct (Z.ltb_spec int_max_str_digits (count_digits (c :: s))); [lia|].
  cbn [int_lstrip]. rewrite (digit_not_space c Hc).
  destruct (digit_not_sign c Hc) as [-> ->].
  apply int_digits_all_digits; [exact Hd|left; discriminate].
Qed.

(** [int] raises on a text of more digits than it converts. *)
Lemma py_int_too_long (s : str) :
  all_digits s = true -> int_max_str_digits < Z.of_nat (length s) ->
  py_int s = None.
Proof.
  intros Hd Hlen. unfold py_int. rewrite (count_digits_all s Hd).
  apply Z.ltb_lt in Hlen. now rewrite Hlen.
Qed.

Lemma fold_zeros (k : nat) (acc : Z) :
  fold_left shift_in (repeat zero_char k) acc = acc * 10 ^ Z.of_nat k.
Proof.
  revert acc. induction k as [|k IH]; intros acc.
  - simpl. lia.
  - rewrite Nat2Z.inj_succ, Z.pow_succ_r by apply Nat2Z.is_nonneg.
    cbn [repeat fold_left]. rewrite IH.
    change (shift_in acc zero_char) with (10 * acc + 0). ring.
Qed.

(** Padding a text of digits with zeros on the right multiplies the number
    it denotes by a power of ten. *)
Lemma decimal_value_ljust (width : nat) (s : str) :
  decimal_value (str_ljust width zero_char s)
  = decimal_value s * 10 ^ Z.of_nat (width - length s).
Proof.
  unfold decimal_value, str_ljust. rewrite fold_left_app.
  apply fold_zeros.
Qed.

Lemma all_digits_ljust (width : nat) (s : str) :
  all_digits s = true -> all_digits (str_ljust width zero_char s) = true.
Proof.
  intros H. unfold all_digits, str_ljust. rewrite forallb_app.
  fold (all_digits s). rewrite H. simpl.
  induction (width - length s)%nat as [|k IH]; [reflexivity|exact IH].
Qed.

Lemma ljust_long (width : nat) (s : str) :
  (width <= length s)%nat -> str_ljust width zero_char s = s.
Proof.
  intros H. unfold str_ljust.
  replace (width - length s)%nat with 0%nat by lia. apply app_nil_r.
Qed.

(** The millisecond field after padding: a text of digits is read as the
    number it denotes, scaled to three digits when it is shorter. *)
Lemma py_int_ms_field (ms : str) :
  all_digits ms = true -> ms <> [] ->
  Z.of_nat (length ms) <= int_max_str_digits ->
  py_int (str_ljust 3 zero_char ms)
  = Some (decimal_value ms * 10 ^ Z.of_nat (3 - length ms)).
Proof.
  intros Hd Hne Hlen. rewrite py_int_all_digits.
  - now rewrite decimal_value_ljust.
  - now apply all_digits_ljust.
  - unfold str_ljust. destruct ms; [congruence|discriminate].
  - unfold str_ljust. rewrite length_app, repeat_length.
    unfold int_max_str_digits in *. lia.
Qed.

(** [split] undoes [join] on fields that do not contain the separator. *)
Lemma str_split_no_sep (sep : ascii) (f : str) :
  forallb (fun c => negb (Ascii.eqb c sep)) f = true -> str_split sep f = [f].
Proof.
  induction f as [|c f IH]; intros H; [reflexivity|].
  simpl in H. apply andb_prop in H. destruct H as [Hc Hf].
  simpl. apply negb_true_iff in Hc. rewrite Hc, (IH Hf). reflexivity.
Qed.

Lemma str_split_app (sep : ascii) (f rest : str) :
  forallb (fun c => negb (Ascii.eqb c sep)) f = true ->
  str_split sep (f ++ sep :: rest) = f :: str_split sep rest.
Proof.
  induction f as [|c f IH]; intros H.
  - simpl. now rewrite Ascii.eqb_refl.
  - simpl in H. apply andb_prop in H. destruct H as [Hc Hf].
    simpl. apply negb_true_iff in Hc. rewrite Hc, (IH Hf). reflexivity.
Qed.

Lemma str_split_join (sep : ascii) (fields : list str) :
  fields <> [] ->
  Forall (fun f => forallb (fun c => negb (Ascii.eqb c sep)) f = true) fields ->
  str_split sep (str_join sep fields) = fields.
Proof.
  induction fields as [|f rest IH]; intros Hne Hall; [congruence|].
  inversion Hall as [|? ? Hf Hrest]; subst.
  destruct rest as [|g rest].
  - simpl. now apply str_split_no_sep.
  - change (str_join sep (f :: g :: rest))
      with (f ++ sep :: str_join sep (g :: rest)).
    rewrite str_split_app by exact Hf.
    f_equal. apply IH; [discriminate|exact Hrest].
Qed.

End PyStrFacts.

(** ** The time codec *)

Module TimeCodecFacts.
Import PyStr TimeCodec PyStrFacts TimeFields.

Lemma time_to_ms_fields (text : string) (parts : list str) :
  str_split colon (of_string text) = parts ->
  _time_to_milliseconds text
  = match parse_fields parts with Some total_ms => total_ms | None => 0 end.
Proof. intros <-. reflexivity. Qed.

(** C6.  A timestamp text with three fields [MM:SS:mmm] or four fields
    [HH:MM:SS:mmm], whose leading fields are read by [int] and whose last
    field consists of one to three digits, is parsed to the number of
    milliseconds obtained by reading the last field as if it were padded
    with zeros on the right to three digits. *)
Theorem parse_valid_timestamp :
  forall (text : string) (hh mm ss ms : str) (h m s : Z),
    py_int mm = Some m -> py_int ss = Some s ->
    all_digits ms = true -> (1 <= length ms <= 3)%nat ->
    (str_split colon (of_string text) = [mm; ss; ms] ->
     _time_to_milliseconds text
     = (m * 60 + s) * 1000 + decimal_value ms * 10 ^ Z.of_nat (3 - length ms))
    /\
    (py_int hh = Some h ->
     str_split colon (of_string text) = [hh; mm; ss; ms] ->
     _time_to_milliseconds text
     = (h * 3600 + m * 60 + s) * 1000
       + decimal_value ms * 10 ^ Z.of_nat (3 - length ms)).
Proof.
  intros text hh mm ss ms h m s Hm Hs Hd Hlen.
  assert (Hne : ms <> []) by (destruct ms; simpl in Hlen; [lia|discriminate]).
  assert (Hcap : Z.of_nat (length ms) <= int_max_str_digits)
    by (unfold int_max_str_digits; lia).
  split; [intros Hsplit|intros Hh Hsplit];
    rewrite (time_to_ms_fields _ _ Hsplit);
    unfold parse_fields;
    rewrite ?Hh, Hm, Hs, (py_int_ms_field ms Hd Hne Hcap); ring.
Qed.

Lemma parse_valid_timestamp_examples :
  _time_to_milliseconds "01:02:5" = 62500
  /\ _time_to_milliseconds "00:01:02:050" = 62050.
Proof.
  split.
  - exact (proj1 (parse_valid_timestamp "01:02:5"
             [] (of_string "01") (of_string "02") (of_string "5")
             0 1 2 eq_refl eq_refl eq_refl
             (conj (le_n 1) (le_S _ _ (le_S _ _ (le_n 1))))) eq_refl).
  - exact (proj2 (parse_valid_timestamp "00:01:02:050"
             (of_string "00") (of_string "01") (of_string "02") (of_string "050")
             0 1 2 eq_refl eq_refl eq_refl
             (conj (le_S _ _ (le_S _ _ (le_n 1))) (le_n 3))) eq_refl eq_refl).
Defined.

(** C10, as the code has it.  When the last field of a text with three or
    four fields consists of more than three digits and of no more digits
    than [int] converts (4300), nothing is cut off: the whole number it
    denotes is added to the milliseconds of the leading fields. *)
Theorem parse_long_ms_field :
  forall (text : string) (hh mm ss ms : str) (h m s : Z),
    py_int mm = Some m -> py_int ss = Some s ->
    all_digits ms = true -> (3 < length ms)%nat ->
    Z.of_nat (length ms) <= int_max_str_digits ->
    (str_split colon (of_string text) = [mm; ss; ms] ->
     _time_to_milliseconds text = (m * 60 + s) * 1000 + decimal_value ms)
    /\
    (py_int hh = Some h ->
     str_split colon (of_string text) = [hh; mm; ss; ms] ->
     _time_to_milliseconds text
     = (h * 3600 + m * 60 + s) * 1000 + decimal_value ms).
Proof.
  intros text hh mm ss ms h m s Hm Hs Hd Hlen Hcap.
  assert (Hne : ms <> []) by (destruct ms; simpl in Hlen; [lia|discriminate]).
  assert (Hms : py_int (str_ljust 3 zero_char ms) = Some (decimal_value ms)).
  { rewrite ljust_long by lia. now apply py_int_all_digits. }
  split; [intros Hsplit|intros Hh Hsplit];
    rewrite (time_to_ms_fields _ _ Hsplit);
    unfold parse_fields; rewrite ?Hh, Hm, Hs, Hms; ring.
Qed.

Lemma parse_long_ms_field_example :
  _time_to_milliseconds "00:00:01:1500" = 2500.
Proof.
  refine (proj2 (parse_long_ms_field "00:00:01:1500"
            (of_string "00") (of_string "00") (of_string "01")
            (of_string "1500") 0 0 1 eq_refl eq_refl eq_refl (le_n 4) _)
            eq_refl eq_refl).
  vm_compute. discriminate.
Defined.

(** C10 fails as stated: a last field of 4301 digits is a numeric text of
    more than three digits, [int] raises on it, and the text is parsed to 0
    and not to the number that the field denotes. *)
Lemma long_ms_field_is_rejected :
  str_split colon (of_string long_ms_text)
  = [of_string "00"; of_string "00"; long_ms_field]
  /\ all_digits long_ms_field = true
  /\ Z.of_nat (length long_ms_field) = 4301
  /\ py_int long_ms_field = None
  /\ _time_to_milliseconds long_ms_text = 0
  /\ (0 * 60 + 0) * 1000 + decimal_value long_ms_field <> 0.
Proof.
  split; [vm_compute; reflexivity|].
  split; [vm_compute; reflexivity|].
  split; [vm_compute; reflexivity|].
  split; [vm_compute; reflexivity|].
  split; [vm_compute; reflexivity|].
  vm_compute. discriminate.
Qed.

(** C7, as the code has it.  A text is parsed to 0 when its number of fields
    is neither 3 nor 4, or when [int] rejects one of its fields before the
    last, or when [int] rejects its last field as padded with zeros on the
    right to three characters. *)
Theorem parse_malformed_is_zero :
  forall (text : string) (parts : list str),
    str_split colon (of_string text) = parts ->
    (length parts <> 3%nat /\ length parts <> 4%nat)
    \/ (exists f, In f (removelast parts) /\ py_int f = None)
    \/ py_int (str_ljust 3 zero_char (last parts [])) = None ->
    _time_to_milliseconds text = 0.
Proof.
  intros text parts Hsplit Hbad. rewrite (time_to_ms_fields _ _ Hsplit).
  destruct parts as [|p0 [|p1 [|p2 [|p3 [|p4 rest]]]]]; try reflexivity.
  - (* three fields *)
    destruct Hbad as [[H3 _] | [[f [Hin Hf]] | Hlast]].
    + now contradiction H3.
    + cbn in Hin. unfold parse_fields.
      destruct Hin as [<- | [<- | []]]; rewrite Hf.
      * reflexivity.
      * now destruct (py_int p0).
    + cbn [last] in Hlast. unfold parse_fields. rewrite Hlast.
      now destruct (py_int p0), (py_int p1).
  - (* four fields *)
    destruct Hbad as [[_ H4] | [[f [Hin Hf]] | Hlast]].
    + now contradiction H4.
    + cbn in Hin. unfold parse_fields.
      destruct Hin as [<- | [<- | [<- | []]]]; rewrite Hf.
      * reflexivity.
      * now destruct (py_int p0).
      * now destruct (py_int p0), (py_int p1).
    + cbn [last] in Hlast. unfold parse_fields. rewrite Hlast.
      now destruct (py_int p0), (py_int p1), (py_int p2).
Qed.

Lemma parse_malformed_examples :
  _time_to_milliseconds "12:34" = 0
  /\ _time_to_milliseconds "1x:02:005" = 0
  /\ _time_to_milliseconds "00:01:02:5a" = 0
  /\ _time_to_milliseconds (String file_separator "1:02:5") = 0
  /\ _time_to_milliseconds long_ms_text = 0.
Proof.
  split; [|split; [|split; [|split]]].
  - apply (parse_malformed_is_zero "12:34" _ eq_refl).
    left. split; discriminate.
  - apply (parse_malformed_is_zero "1x:02:005" _ eq_refl).
    right. left. exists (of_string "1x"). split; [now left|reflexivity].
  - apply (parse_malformed_is_zero "00:01:02:5a" _ eq_refl).
    right. right. reflexivity.
  - apply (parse_malformed_is_zero (String file_separator "1:02:5") _ eq_refl).
    right. left. exists [file_separator; "1"%char].
    split; [now left|reflexivity].
  - apply (parse_malformed_is_zero long_ms_text
             [of_string "00"; of_string "00"; long_ms_field]).
    + vm_compute. reflexivity.
    + right. right. vm_compute. reflexivity.
Defined.

(** C7 fails as stated: the text "01:02:" has an empty last field, which
    [int] rejects, and yet it is parsed to 62000, because the field is
    padded to "000" before it is read. *)
Lemma empty_ms_field_is_padded :
  (exists f, In f (str_split colon (of_string "01:02:")) /\ py_int f = None)
  /\ _time_to_milliseconds "01:02:" = 62000
  /\ _time_to_milliseconds "01:02:" <> 0.
Proof.
  split; [|split].
  - exists []. split; [|reflexivity]. cbn. auto.
  - reflexivity.
  - discriminate.
Qed.

End TimeCodecFacts.

(** ** Doubles *)

Module Binary64Facts.
Import DurationFitter.

Local Open Scope Q_scope.

Lemma Qle_bool_false (x y : Q) : Qle_bool x y = false -> (y < x)%Q.
Proof.
  intros H. apply Qnot_le_lt. intros Hle.
  apply Qle_bool_iff in Hle. congruence.
Qed.

Lemma int_of_float_floor (x : Q) : (0 <= x)%Q -> int_of_float x = Qfloor x.
Proof.
  destruct x as [n d]. unfold Qle, int_of_float, Qfloor. simpl.
  intros H. apply Z.quot_div_nonneg; lia.
Qed.

(** [round] gives a neighbour of its argument among the integers, at a
    distance of at most one half. *)
Lemma round_half_even_near (y : Q) :
  inject_Z (Qfloor y) <= inject_Z (round_half_even y)
  /\ inject_Z (round_half_even y) - y <= 1 # 2
  /\ y - inject_Z (round_half_even y) <= 1 # 2.
Proof.
  pose proof (Qfloor_le y) as Hlo. pose proof (Qlt_floor y) as Hhi.
  rewrite inject_Z_plus in Hhi. change (inject_Z 1) with 1 in Hhi.
  unfold round_half_even.
  set (lo := Qfloor y) in *.
  destruct (Qle_bool (2 * (y - inject_Z lo)) 1) eqn:E1;
    destruct (Qle_bool 1 (2 * (y - inject_Z lo))) eqn:E2; cbn [andb negb];
    try apply Qle_bool_iff in E1; try apply Qle_bool_iff in E2;
    try apply Qle_bool_false in E1; try apply Qle_bool_false in E2;
    try (destruct (Z.even lo)); rewrite ?inject_Z_plus;
    change (inject_Z 1) with 1; repeat split; lra.
Qed.

Lemma pow2_pos (z : Z) : 0 < 2 ^ z.
Proof. now apply Qpower_0_lt. Qed.

Lemma pow2_inverse (e : Z) : 2 ^ (- e) * 2 ^ e == 1.
Proof.
  rewrite <- Qpower_plus by discriminate.
  replace (- e + e)%Z with 0%Z by lia. reflexivity.
Qed.

Lemma pow2_integer (s : Z) : (0 <= s)%Z -> 2 ^ s == inject_Z (2 ^ s).
Proof. intros H. now rewrite Zpower_Qpower. Qed.


(** The logarithm computed from the numerator and the denominator is the
    binade of a positive number. *)
Lemma floor_log2_spec (x : Q) :
  0 < x -> 2 ^ floor_log2 x <= x /\ x < 2 ^ (floor_log2 x + 1).
Proof.
  intros Hx. unfold floor_log2.
  set (a := Z.log2 (Qnum x)). set (b := Z.log2 (Zpos (Qden x))).
  assert (Hnum : (0 < Qnum x)%Z).
  { destruct x as [n d]. unfold Qlt in Hx. simpl in *. lia. }
  destruct (Z.log2_spec (Qnum x) Hnum) as [Ha1 Ha2]. fold a in Ha1, Ha2.
  destruct (Z.log2_spec (Zpos (Qden x)) eq_refl) as [Hb1 Hb2].
  fold b in Hb1, Hb2.
  assert (Ha0 : (0 <= a)%Z) by apply Z.log2_nonneg.
  assert (Hb0 : (0 <= b)%Z) by apply Z.log2_nonneg.
  assert (Ex : x == inject_Z (Qnum x) / inject_Z (Zpos (Qden x))).
  { destruct x as [n d]. simpl. apply Qmake_Qdiv. }
  set (N := inject_Z (Qnum x)) in *. set (D := inject_Z (Zpos (Qden x))) in *.
  assert (HD : 0 < D) by reflexivity.
  assert (HaN : 2 ^ a <= N).
  { rewrite pow2_integer by exact Ha0. unfold N. now rewrite <- Zle_Qle. }
  assert (HNa : N < 2 ^ (a + 1)).
  { rewrite pow2_integer by lia. unfold N. rewrite <- Zlt_Qlt.
    now rewrite <- Z.add_1_r in Ha2. }
  assert (HbD : 2 ^ b <= D).
  { rewrite pow2_integer by exact Hb0. unfold D. now rewrite <- Zle_Qle. }
  assert (HDb : D < 2 ^ (b + 1)).
  { rewrite pow2_integer by lia. unfold D. rewrite <- Zlt_Qlt.
    now rewrite <- Z.add_1_r in Hb2. }
  assert (Hlow : 2 ^ (a - b - 1) < x).
  { replace (a - b - 1)%Z with (a - (b + 1))%Z by lia.
    rewrite Qpower_minus by discriminate. rewrite Ex.
    pose proof (pow2_pos a). pose proof (pow2_pos (b + 1)).
    apply Qlt_shift_div_l; [exact HD|].
    setoid_replace (2 ^ a / 2 ^ (b + 1) * D) with (2 ^ a * D / 2 ^ (b + 1))
      by (field; lra).
    apply Qlt_shift_div_r; [assumption|]. nra. }
  assert (Hhigh : x < 2 ^ (a - b + 1)).
  { replace (a - b + 1)%Z with (a + 1 - b)%Z by lia.
    rewrite Qpower_minus by discriminate. rewrite Ex.
    pose proof (pow2_pos (a + 1)). pose proof (pow2_pos b).
    apply Qlt_shift_div_r; [exact HD|].
    setoid_replace (2 ^ (a + 1) / 2 ^ b * D) with (2 ^ (a + 1) * D / 2 ^ b)
      by (field; lra).
    apply Qlt_shift_div_l; [assumption|]. nra. }
  destruct (Qle_bool (2 ^ (a - b)) x) eqn:E.
  - apply Qle_bool_iff in E. split; [exact E|exact Hhigh].
  - apply Qle_bool_false in E. split; [now apply Qlt_le_weak|].
    now replace (a - b - 1 + 1)%Z with (a - b)%Z by lia.
Qed.

Lemma pow2_lt_inv (n m : Z) : 2 ^ n < 2 ^ m -> (n < m)%Z.
Proof. intros H. apply (Qpower_lt_compat_l_inv 2); [exact H|reflexivity]. Qed.

(** Below 2^53 the doubles are at most one apart. *)
Lemma ulp_exponent_small (x : Q) : 0 < x -> x < 2 ^ 53 -> (ulp_exponent x <= 0)%Z.
Proof.
  intros Hx Hlt. destruct (floor_log2_spec x Hx) as [Hlo _].
  assert (H : (floor_log2 x < 53)%Z).
  { apply pow2_lt_inv. now apply Qle_lt_trans with x. }
  unfold ulp_exponent. lia.
Qed.

Section Rounding.

Variable x : Q.
Hypothesis x_pos : 0 < x.

Lemma binary64_positive :
  binary64 x = inject_Z (mantissa x) * 2 ^ ulp_exponent x.
Proof.
  unfold binary64. destruct (Qle_bool x 0) eqn:E; [|reflexivity].
  apply Qle_bool_iff in E. lra.
Qed.

Lemma mantissa_near :
  inject_Z (mantissa x) - x * 2 ^ (- ulp_exponent x) <= 1 # 2
  /\ x * 2 ^ (- ulp_exponent x) - inject_Z (mantissa x) <= 1 # 2.
Proof. apply round_half_even_near. Qed.

Lemma mantissa_nonneg : (0 <= mantissa x)%Z.
Proof.
  destruct (round_half_even_near (x * 2 ^ (- ulp_exponent x))) as [Hfl _].
  fold (mantissa x) in Hfl. rewrite <- Zle_Qle in Hfl.
  assert (H0 : (Qfloor 0 <= Qfloor (x * 2 ^ (- ulp_exponent x)))%Z).
  { apply Qfloor_resp_le. apply Qmult_le_0_compat.
    - now apply Qlt_le_weak.
    - apply Qlt_le_weak, pow2_pos. }
  change (Qfloor 0) with 0%Z in H0. lia.
Qed.

Lemma binary64_nonneg : 0 <= binary64 x.
Proof.
  rewrite binary64_positive. pose proof mantissa_nonneg as Hm.
  rewrite Zle_Qle in Hm. apply Qmult_le_0_compat; [exact Hm|].
  apply Qlt_le_weak, pow2_pos.
Qed.

(** The double nearest to [x] is at a distance of at most half a unit in
    the last place. *)
Lemma binary64_near :
  binary64 x - x <= (1 # 2) * 2 ^ ulp_exponent x
  /\ x - binary64 x <= (1 # 2) * 2 ^ ulp_exponent x.
Proof.
  rewrite binary64_positive. destruct mantissa_near as [H1 H2].
  pose proof (pow2_pos (ulp_exponent x)) as HP.
  pose proof (pow2_inverse (ulp_exponent x)) as HI.
  set (P := 2 ^ ulp_exponent x) in *. set (I := 2 ^ (- ulp_exponent x)) in *.
  assert (E : x == x * I * P) by (rewrite <- Qmult_assoc, HI; ring).
  set (M := inject_Z (mantissa x)) in *.
  split.
  - assert (H : (M - x * I) * P <= (1 # 2) * P)
      by (apply Qmult_le_compat_r; lra).
    lra.
  - assert (H : (x * I - M) * P <= (1 # 2) * P)
      by (apply Qmult_le_compat_r; lra).
    lra.
Qed.

(** Where the doubles are at most one apart, rounding does not go below the
    integer part. *)
Lemma binary64_above_floor :
  (ulp_exponent x <= 0)%Z -> inject_Z (Qfloor x) <= binary64 x.
Proof.
  intros He. rewrite binary64_positive.
  pose proof (pow2_pos (ulp_exponent x)) as HP.
  pose proof (pow2_inverse (ulp_exponent x)) as HI.
  assert (EI : 2 ^ (- ulp_exponent x) == inject_Z (2 ^ (- ulp_exponent x)))
    by (apply pow2_integer; lia).
  destruct (round_half_even_near (x * 2 ^ (- ulp_exponent x))) as [Hfl _].
  fold (mantissa x) in Hfl.
  assert (Hk : (Qfloor x * 2 ^ (- ulp_exponent x)
                <= Qfloor (x * 2 ^ (- ulp_exponent x)))%Z).
  { rewrite <- (Qfloor_Z (Qfloor x * 2 ^ (- ulp_exponent x))).
    apply Qfloor_resp_le.
    rewrite inject_Z_mult, <- EI. apply Qmult_le_compat_r.
    - apply Qfloor_le.
    - apply Qlt_le_weak, pow2_pos. }
  assert (Hm : inject_Z (Qfloor x) * 2 ^ (- ulp_exponent x)
               <= inject_Z (mantissa x)).
  { rewrite EI, <- inject_Z_mult, <- Zle_Qle.
    rewrite <- Zle_Qle in Hfl. lia. }
  set (P := 2 ^ ulp_exponent x) in *. set (I := 2 ^ (- ulp_exponent x)) in *.
  assert (H : inject_Z (Qfloor x) * I * P <= inject_Z (mantissa x) * P)
    by (apply Qmult_le_compat_r; lra).
  assert (E : inject_Z (Qfloor x) == inject_Z (Qfloor x) * I * P)
    by (rewrite <- Qmult_assoc, HI; ring).
  lra.
Qed.

(** Where the doubles are at least one apart, they are integers. *)
Lemma binary64_integer :
  (0 <= ulp_exponent x)%Z ->
  binary64 x == inject_Z (mantissa x * 2 ^ ulp_exponent x).
Proof.
  intros He. rewrite binary64_positive, inject_Z_mult.
  now rewrite <- pow2_integer.
Qed.

End Rounding.

(** *** The sample count [int(target_duration * sr)] *)

Section SampleCount.

Variable x : Q.
Hypothesis x_pos : 0 < x.

Lemma count_is_floor : int_of_float (binary64 x) = Qfloor (binary64 x).
Proof. apply int_of_float_floor. now apply binary64_nonneg. Qed.

Lemma count_nonneg : (0 <= int_of_float (binary64 x))%Z.
Proof.
  rewrite count_is_floor. change 0%Z with (Qfloor 0).
  apply Qfloor_resp_le. now apply binary64_nonneg.
Qed.

(** Below 2^53 the count is the integer part of the exact product or the
    next integer. *)
Lemma count_near :
  x < 2 ^ 53 ->
  x - 1 < inject_Z (int_of_float (binary64 x))
  /\ inject_Z (int_of_float (binary64 x)) < x + 1.
Proof.
  intros Hlt. pose proof (ulp_exponent_small x x_pos Hlt) as He.
  rewrite count_is_floor. split.
  - pose proof (binary64_above_floor x x_pos He) as Hfl.
    apply Qfloor_resp_le in Hfl. rewrite Qfloor_Z in Hfl.
    rewrite Zle_Qle in Hfl. pose proof (Qlt_floor x) as Hx.
    rewrite inject_Z_plus in Hx. change (inject_Z 1) with 1 in Hx. lra.
  - destruct (binary64_near x x_pos) as [Hup _].
    pose proof (Qfloor_le (binary64 x)) as Hfl.
    assert (Hulp : 2 ^ ulp_exponent x <= 1).
    { change 1 with (2 ^ 0). apply Qpower_le_compat_l; [exact He|discriminate]. }
    lra.
Qed.


(** A count of at least one sample is within a factor of two of the exact
    product. *)
Lemma count_within_factor_two :
  (1 <= int_of_float (binary64 x))%Z ->
  x <= 2 * inject_Z (int_of_float (binary64 x))
  /\ inject_Z (int_of_float (binary64 x)) <= 2 * x.
Proof.
  intros Hn. rewrite count_is_floor in *.
  pose proof (Qfloor_le (binary64 x)) as Hfl.
  pose proof Hn as Hnq. rewrite Zle_Qle in Hnq.
  change (inject_Z 1) with 1 in Hnq.
  destruct (mantissa_near x) as [Hup Hdown].
  pose proof (pow2_pos (ulp_exponent x)) as HP.
  pose proof (pow2_inverse (ulp_exponent x)) as HI.
  pose proof (mantissa_nonneg x x_pos) as Hm0.
  assert (Hm : (1 <= mantissa x)%Z).
  { destruct (Z.eq_dec (mantissa x) 0) as [E|E]; [|lia].
    assert (E0 : binary64 x == 0)
      by (rewrite (binary64_positive x x_pos), E; ring).
    lra. }
  rewrite Zle_Qle in Hm. change (inject_Z 1) with 1 in Hm.
  assert (Hupper : binary64 x <= 2 * x).
  { rewrite (binary64_positive x x_pos).
    set (P := 2 ^ ulp_exponent x) in *. set (I := 2 ^ (- ulp_exponent x)) in *.
    set (M := inject_Z (mantissa x)) in *.
    assert (H : M * P <= 2 * (x * I) * P) by (apply Qmult_le_compat_r; lra).
    assert (E : x == x * I * P) by (rewrite <- Qmult_assoc, HI; ring).
    lra. }
  split; [|lra].
  destruct (Z.le_gt_cases (ulp_exponent x) 0) as [He|He].
  - pose proof (binary64_above_floor x x_pos He) as Hfx.
    apply Qfloor_resp_le in Hfx. rewrite Qfloor_Z in Hfx.
    rewrite Zle_Qle in Hfx. pose proof (Qlt_floor x) as Hx.
    rewrite inject_Z_plus in Hx. change (inject_Z 1) with 1 in Hx. lra.
  - rewrite (binary64_integer x x_pos) by lia. rewrite Qfloor_Z.
    rewrite inject_Z_mult, <- pow2_integer by lia.
    set (P := 2 ^ ulp_exponent x) in *. set (I := 2 ^ (- ulp_exponent x)) in *.
    set (M := inject_Z (mantissa x)) in *.
    assert (H : x * I * P <= 2 * M * P) by (apply Qmult_le_compat_r; lra).
    assert (E : x == x * I * P) by (rewrite <- Qmult_assoc, HI; ring).
    lra.
Qed.

End SampleCount.

End Binary64Facts.

(** ** The duration fitter *)

Module DurationFitterFacts.
Import DurationFitter Binary64Facts.

Lemma fix_length_length (data : waveform) (size : Z) :
  0 <= size -> Z.of_nat (length (fix_length data size)) = size.
Proof.
  intros Hsize. unfold fix_length.
  rewrite length_app, length_firstn, repeat_length.
  rewrite <- (Z2Nat.id size Hsize) at 3. f_equal. lia.
Qed.

(** A clip has a positive duration only at a positive sample rate. *)
Lemma duration_positive_rate (n : nat) (sr : Z) :
  (0 < duration_of n sr)%Q -> 0 < sr.
Proof.
  unfold duration_of, Qlt, Qdiv, Qmult, Qinv, inject_Z.
  destruct sr as [|p|p]; simpl; lia.
Qed.

Lemma Qmult_pos (x y : Q) : (0 < x)%Q -> (0 < y)%Q -> (0 < x * y)%Q.
Proof.
  intros Hx Hy. rewrite <- (Qmult_0_l y). now apply Qmult_lt_compat_r.
Qed.

Lemma inject_Z_pos (z : Z) : 0 < z -> (0 < inject_Z z)%Q.
Proof. intros H. change 0%Q with (inject_Z 0). now rewrite <- Zlt_Qlt. Qed.

(** The cases of a successful fit. *)
Lemma fitted_inv load time_stretch input output target w y_fixed y sr :
  load input = Some (y, sr) ->
  _adjust_audio_speed load time_stretch input output target = Fitted w y_fixed ->
  0 < sr /\ (0 < target)%Q /\
  exists y_stretched,
    time_stretch y (duration_of (length y) sr / target)%Q = Some y_stretched
    /\ y_fixed
       = fix_length y_stretched
           (int_of_float (float_mul target (inject_Z sr)))
    /\ (y_stretched = [] ->
        int_of_float (float_mul target (inject_Z sr)) <= 0).
Proof.
  intros Hload. unfold _adjust_audio_speed. rewrite Hload.
  destruct (sr =? 0); [discriminate|].
  destruct (Qle_bool (duration_of (length y) sr) 0) eqn:Hcur; [discriminate|].
  destruct (Qle_bool target 0) eqn:Htar; [discriminate|]. cbn [orb].
  destruct (time_stretch y _) as [y_stretched|] eqn:Hts; [|discriminate].
  destruct ((length y_stretched =? 0)%nat && _) eqn:Hempty; [discriminate|].
  intros [= _ <-].
  split; [|split].
  - apply Qle_bool_false in Hcur. now apply duration_positive_rate in Hcur.
  - now apply Qle_bool_false.
  - exists y_stretched. split; [reflexivity|split; [reflexivity|]].
    intros ->. simpl in Hempty. apply Z.ltb_ge in Hempty. exact Hempty.
Qed.

(** C1, as the code has it.  A successful fit writes exactly
    [int(target_duration * sr)] samples, whatever the stretch produced: the
    float product, that is the exact product rounded to the nearest double,
    is truncated and not rounded to the nearest integer.  For a product
    below 2^53 the duration of the written clip therefore differs from the
    target by less than one sample period. *)
Theorem fit_sample_count :
  forall load time_stretch input output target w y_fixed y sr,
    load input = Some (y, sr) ->
    _adjust_audio_speed load time_stretch input output target
    = Fitted w y_fixed ->
    Z.of_nat (length y_fixed)
    = int_of_float (float_mul target (inject_Z sr))
    /\ ((target * inject_Z sr < 2 ^ 53)%Q ->
        (target - 1 / inject_Z sr < clip_duration y_fixed sr)%Q
        /\ (clip_duration y_fixed sr < target + 1 / inject_Z sr)%Q).
Proof.
  intros load ts input output target w y_fixed y sr Hload Hfit.
  destruct (fitted_inv _ _ _ _ _ _ _ _ _ Hload Hfit)
    as [Hsr [Htar [y_stretched [_ [-> _]]]]].
  pose proof (inject_Z_pos sr Hsr) as Hsrq.
  assert (Hprod : (0 < target * inject_Z sr)%Q) by now apply Qmult_pos.
  pose proof (count_nonneg _ Hprod) as Hnn.
  unfold clip_duration, duration_of, float_mul in *.
  rewrite (fix_length_length _ _ Hnn).
  split; [reflexivity|]. intros Hsmall.
  destruct (count_near _ Hprod Hsmall) as [Hlo Hhi].
  assert (Hne : ~ (inject_Z sr == 0)%Q).
  { intros E0. rewrite E0 in Hsrq. now apply Qlt_irrefl in Hsrq. }
  split.
  - apply Qlt_shift_div_l; [exact Hsrq|].
    assert (E : ((target - 1 / inject_Z sr) * inject_Z sr
                 == target * inject_Z sr - 1)%Q) by (field; exact Hne).
    rewrite E. exact Hlo.
  - apply Qlt_shift_div_r; [exact Hsrq|].
    assert (E : ((target + 1 / inject_Z sr) * inject_Z sr
                 == target * inject_Z sr + 1)%Q) by (field; exact Hne).
    rewrite E. exact Hhi.
Qed.

(** One second of speech at 24 kHz is fitted to the double that [0.7]
    denotes: the float product is 16800, the exact product is just below
    it, and 16800 samples are written. *)
Lemma fit_sample_count_witness :
  Sessions.fit_raw "segment_0000_raw.wav" Sessions.seven_tenths
  = Fitted false (repeat (1 # 2)%Q (Z.to_nat 16800))
  /\ int_of_float (Sessions.seven_tenths * inject_Z 24000) = 16799
  /\ Z.of_nat (length (repeat (1 # 2)%Q (Z.to_nat 16800)))
     = int_of_float (float_mul Sessions.seven_tenths (inject_Z 24000))
  /\ (Sessions.seven_tenths - 1 / inject_Z 24000
      < clip_duration (repeat (1 # 2)%Q (Z.to_nat 16800)) 24000)%Q
  /\ (clip_duration (repeat (1 # 2)%Q (Z.to_nat 16800)) 24000
      < Sessions.seven_tenths + 1 / inject_Z 24000)%Q.
Proof.
  split; [vm_compute; reflexivity|].
  split; [vm_compute; reflexivity|].
  destruct (fit_sample_count Sessions.raw_files Sessions.resampling_stretch
              "segment_0000_raw.wav" "segment_adjusted.wav"
              Sessions.seven_tenths false
              (repeat (1 # 2)%Q (Z.to_nat 16800))
              (repeat (1 # 2)%Q (Z.to_nat 24000)) 24000)
    as [Hcount Hnear].
  - reflexivity.
  - vm_compute. reflexivity.
  - split; [exact Hcount|]. apply Hnear. vm_compute. reflexivity.
Defined.

(** From 2^53 on the doubles are more than one apart, and the float product
    can miss the exact product by a sample or more: for a target of
    2^53 + 2 seconds at 3 Hz the float product is two samples off. *)
Lemma large_product_is_off :
  (inject_Z (2 ^ 53 + 2) * inject_Z 3 == inject_Z (3 * 2 ^ 53 + 6))%Q
  /\ int_of_float (float_mul (inject_Z (2 ^ 53 + 2)) (inject_Z 3))
     = 3 * 2 ^ 53 + 8.
Proof. split; vm_compute; reflexivity. Qed.

(** C1 fails as stated: one second of speech at 24 kHz fitted to
    257/256 s (1.00390625 s, so that the product with the rate is exactly
    24093.75) is written with 24093 samples, and the rounded product is
    24094. *)
Lemma fit_truncates_instead_of_rounding :
  option_map (fun y_fixed => Z.of_nat (length y_fixed))
    (fit_written (Sessions.fit_raw "segment_0000_raw.wav" (257 # 256)))
  = Some 24093
  /\ round_half_even ((257 # 256) * inject_Z 24000) = 24094.
Proof. split; vm_compute; reflexivity. Qed.





End DurationFitterFacts.

(** ** The track assembler *)

Module TrackAssemblerFacts.
Import TimeCodec PyStr PyPath TrackAssembler.

Lemma insert_by_index_perm (s : segment) (sorted : list segment) :
  Permutation (insert_by_index s sorted) (s :: sorted).
Proof.
  induction sorted as [|h t IH]; simpl; [reflexivity|].
  destruct (segment_index s <=? segment_index h); [reflexivity|].
  rewrite IH. apply perm_swap.
Qed.

(** Sorting keeps the segments: it only reorders them. *)
Lemma sort_by_index_perm (segments : list segment) :
  Permutation (sort_by_index segments) segments.
Proof.
  induction segments as [|s rest IH]; simpl; [reflexivity|].
  rewrite insert_by_index_perm. now constructor.
Qed.

(** The text of a path is never empty. *)
Lemma path_join_nonempty (a b : string) : path_join a b <> EmptyString.
Proof.
  unfold path_join.
  assert (H : forall root parts, exists c rest, path_text root parts = c :: rest).
  { intros root parts. unfold path_text.
    destruct (root ++ str_join slash parts) as [|c rest]; eauto. }
  destruct (path_root (of_string b)) as [|r0 root].
  - destruct (H (path_root (of_string a))
                (path_parts (of_string a) ++ path_parts (of_string b)))
      as [c [rest ->]]. discriminate.
  - destruct (H (r0 :: root) (path_parts (of_string b))) as [c [rest ->]].
    discriminate.
Qed.

Section Runs.

Context {P : Pydub}.
Variable from_wav : string -> option AudioSegment.
Variable export_wav : string -> AudioSegment -> bool.

(** An iteration fails only when the clip cannot be loaded. *)
Lemma add_segment_loaded (st : mix_state) (seg : segment) (clip : AudioSegment) :
  from_wav (final_audio_file seg) = Some clip ->
  add_segment from_wav st seg
  = Some {| combined_audio :=
              seg_add (with_gap_silence st (slot_start seg)) (faded clip);
            last_end_time := slot_start seg + seg_len (faded clip) |}.
Proof. intros H. unfold add_segment. now rewrite H. Qed.

Lemma add_segment_inv (st st' : mix_state) (seg : segment) :
  add_segment from_wav st seg = Some st' ->
  exists clip,
    from_wav (final_audio_file seg) = Some clip
    /\ st' = {| combined_audio :=
                  seg_add (with_gap_silence st (slot_start seg)) (faded clip);
                last_end_time := slot_start seg + seg_len (faded clip) |}.
Proof.
  unfold add_segment.
  destruct (from_wav (final_audio_file seg)) as [clip|]; [|discriminate].
  intros [= <-]. now exists clip.
Qed.

Lemma combine_loop_app (front back : list segment) :
  forall st,
    combine_loop from_wav st (front ++ back)
    = match combine_loop from_wav st front with
      | Some st' => combine_loop from_wav st' back
      | None => None
      end.
Proof.
  induction front as [|s front IH]; intros st; simpl; [reflexivity|].
  destruct (add_segment from_wav st s); [apply IH|reflexivity].
Qed.

Lemma elided_gap_bounds (st : mix_state) (seg : segment) :
  0 <= elided_gap st seg <= 20.
Proof.
  unfold elided_gap.
  destruct (Z.ltb_spec 0 (gap_to st seg)), (Z.leb_spec (gap_to st seg) 20);
    cbn [andb]; lia.
Qed.

Lemma elided_ms_bounds (segments : list segment) :
  forall st, 0 <= elided_ms from_wav st segments
             <= 20 * Z.of_nat (length segments).
Proof.
  induction segments as [|seg rest IH]; intros st.
  - simpl. lia.
  - cbn [elided_ms length]. pose proof (elided_gap_bounds st seg).
    destruct (add_segment from_wav st seg) as [st'|].
    + specialize (IH st'). lia.
    + lia.
Qed.

(** *** The track as the parts appended to it *)

Lemma join_pieces_app (track : AudioSegment) (ps qs : list piece) :
  join_pieces (join_pieces track ps) qs = join_pieces track (ps ++ qs).
Proof. unfold join_pieces. now rewrite fold_left_app. Qed.

Lemma pieces_ms_app (ps qs : list piece) :
  pieces_ms (ps ++ qs) = pieces_ms ps + pieces_ms qs.
Proof.
  unfold pieces_ms. induction ps as [|p ps IH]; simpl; [reflexivity|].
  rewrite IH. lia.
Qed.

(** The two appends of an iteration are the appends of its parts. *)
Lemma step_appends_pieces (st : mix_state) (seg : segment)
    (clip : AudioSegment) :
  seg_add (with_gap_silence st (slot_start seg)) (faded clip)
  = join_pieces (combined_audio st) (step_pieces st seg clip).
Proof.
  unfold with_gap_silence, step_pieces, gap_to.
  destruct (Z.ltb_spec (last_end_time st) (slot_start seg)) as [Hlt|Hge];
    destruct (Z.ltb_spec 20 (slot_start seg - last_end_time st)) as [Hgap|Hgap];
    try reflexivity.
  lia.
Qed.

Lemma step_pieces_ms (st : mix_state) (seg : segment) (clip : AudioSegment) :
  pieces_ms (step_pieces st seg clip)
  = (if 20 <? gap_to st seg then gap_to st seg else 0) + seg_len (faded clip).
Proof.
  unfold step_pieces. destruct (20 <? gap_to st seg); simpl; lia.
Qed.

(** The track after a run is the track before it with the parts of the run
    appended in their order. *)
Lemma combine_loop_pieces (segments : list segment) :
  forall st st',
    combine_loop from_wav st segments = Some st' ->
    combined_audio st'
    = join_pieces (combined_audio st) (pieces from_wav st segments).
Proof.
  induction segments as [|s rest IH]; intros st st' Hrun.
  - simpl in Hrun. now injection Hrun as <-.
  - cbn [combine_loop pieces] in *.
    destruct (add_segment from_wav st s) as [st1|] eqn:Hstep; [|discriminate].
    destruct (add_segment_inv _ _ _ Hstep) as [clip [Hclip Hst1]].
    rewrite Hclip, (IH _ _ Hrun), <- join_pieces_app.
    f_equal. rewrite Hst1. cbn [combined_audio]. apply step_appends_pieces.
Qed.

(** One iteration moves the cursor by the durations of its parts when the
    slot starts at the cursor or more than 20 ms after it, and by at most
    these durations and the gap that it leaves out otherwise. *)
Lemma add_segment_cursor (st st' : mix_state) (seg : segment) :
  add_segment from_wav st seg = Some st' ->
  exists clip,
    from_wav (final_audio_file seg) = Some clip
    /\ last_end_time st' = slot_start seg + seg_len (faded clip)
    /\ last_end_time st'
       <= last_end_time st + pieces_ms (step_pieces st seg clip)
          + elided_gap st seg
    /\ (on_cursor st seg = true ->
        last_end_time st'
        = last_end_time st + pieces_ms (step_pieces st seg clip)).
Proof.
  intros H. destruct (add_segment_inv _ _ _ H) as [clip [Hclip ->]].
  exists clip. cbn [last_end_time]. rewrite step_pieces_ms.
  split; [exact Hclip|split; [reflexivity|]].
  unfold elided_gap, on_cursor, gap_to.
  destruct (Z.ltb_spec 20 (slot_start seg - last_end_time st)),
    (Z.ltb_spec 0 (slot_start seg - last_end_time st)),
    (Z.leb_spec (slot_start seg - last_end_time st) 20),
    (Z.eqb_spec (slot_start seg - last_end_time st) 0);
    cbn [andb orb]; split; try lia; intros; try discriminate; lia.
Qed.

Lemma pieces_ms_nonneg (segments : list segment) :
  forall st, 0 <= pieces_ms (pieces from_wav st segments).
Proof.
  induction segments as [|s rest IH]; intros st; cbn [pieces].
  - simpl. lia.
  - destruct (from_wav (final_audio_file s)) as [clip|]; [|simpl; lia].
    destruct (add_segment from_wav st s) as [st1|]; [|simpl; lia].
    rewrite pieces_ms_app, step_pieces_ms.
    pose proof (len_nonneg (faded clip)). specialize (IH st1).
    destruct (Z.ltb_spec 20 (gap_to st s)); lia.
Qed.

(** The invariant of a run: the cursor, and with it the end of every clip on
    the original time line, is at most the cursor at the start plus the
    durations of the parts appended and the gaps left out. *)
Lemma combine_loop_covers (segments : list segment) :
  forall st st',
    combine_loop from_wav st segments = Some st' ->
    last_end_time st'
    <= last_end_time st + pieces_ms (pieces from_wav st segments)
       + elided_ms from_wav st segments
    /\ forall seg clip,
         In seg segments -> from_wav (final_audio_file seg) = Some clip ->
         slot_start seg + seg_len (faded clip)
         <= last_end_time st + pieces_ms (pieces from_wav st segments)
            + elided_ms from_wav st segments.
Proof.
  induction segments as [|s rest IH]; intros st st' Hrun.
  - simpl in Hrun. injection Hrun as <-. simpl.
    split; [lia|intros ? ? []].
  - cbn [combine_loop elided_ms pieces] in *.
    destruct (add_segment from_wav st s) as [st1|] eqn:Hstep; [|discriminate].
    destruct (add_segment_cursor _ _ _ Hstep)
      as [clip0 [Hclip0 [Hend [Hle _]]]].
    rewrite Hclip0, pieces_ms_app.
    destruct (IH _ _ Hrun) as [Hcur Hin'].
    pose proof (elided_ms_bounds rest st1) as Hrest.
    pose proof (pieces_ms_nonneg rest st1) as Hpieces.
    split; [lia|].
    intros seg clip [<- | Hin] Hclip.
    + rewrite Hclip in Hclip0. injection Hclip0 as <-. lia.
    + specialize (Hin' seg clip Hin Hclip). lia.
Qed.

(** The cursor is the sum of the durations of the parts appended along
    iterations whose slot starts at the cursor or more than 20 ms after
    it. *)
Lemma combine_loop_on_cursor (segments : list segment) :
  forall st st',
    every_step from_wav on_cursor st segments = true ->
    combine_loop from_wav st segments = Some st' ->
    last_end_time st'
    = last_end_time st + pieces_ms (pieces from_wav st segments).
Proof.
  induction segments as [|s rest IH]; intros st st' Hall Hrun.
  - simpl in *. injection Hrun as <-. lia.
  - cbn [combine_loop every_step pieces] in *.
    apply andb_prop in Hall. destruct Hall as [Hon Hall].
    destruct (add_segment from_wav st s) as [st1|] eqn:Hstep; [|discriminate].
    destruct (add_segment_cursor _ _ _ Hstep) as [clip [Hclip [_ [_ Heq]]]].
    rewrite Hclip, pieces_ms_app, (IH _ _ Hall Hrun), (Heq Hon). lia.
Qed.

(** C2, as the code has it.  An iteration does not advance the cursor by the
    duration of the clip: it sets it to the slot start of the clip plus the
    length of the clip as appended.  After every non-empty prefix of the
    loop the cursor is therefore the end of the last clip on the original
    time line.  It is the sum of the durations of the parts appended so far,
    the milliseconds that each silence was made for and the length of each
    clip, after every prefix in which each slot starts at the cursor or more
    than 20 ms after it. *)
Theorem cursor_is_slot_end :
  (forall front final st,
      combine_loop from_wav initial_state (front ++ [final]) = Some st ->
      exists clip,
        from_wav (final_audio_file final) = Some clip
        /\ last_end_time st = slot_start final + seg_len (faded clip))
  /\
  (forall segments st,
      every_step from_wav on_cursor initial_state segments = true ->
      combine_loop from_wav initial_state segments = Some st ->
      last_end_time st = pieces_ms (pieces from_wav initial_state segments)).
Proof.
  split.
  - intros front final st Hrun. rewrite combine_loop_app in Hrun.
    destruct (combine_loop from_wav initial_state front) as [st0|];
      [|discriminate].
    cbn [combine_loop] in Hrun.
    destruct (add_segment from_wav st0 final) as [st1|] eqn:Hstep;
      [|discriminate].
    injection Hrun as <-.
    destruct (add_segment_cursor _ _ _ Hstep) as [clip [Hclip [Hend _]]].
    now exists clip.
  - intros segments st Hall Hrun.
    now rewrite (combine_loop_on_cursor segments initial_state st Hall Hrun).
Qed.

(** C3, as the code has it.  The exported track is the parts of the run,
    silences and clips, joined in the order of the indices.  The durations
    of these parts add up to at least the end [start_time + duration] of
    every clip, less the milliseconds of the gaps of at most 20 ms that the
    loop left out; these are at most 20 ms for each segment.  How long the
    joined track is rendered is up to the audio library. *)
Theorem track_covers_slots :
  forall (segments : list segment) (session_id file : string)
         (track : AudioSegment),
    exported (_combine_audio_segments from_wav export_wav segments session_id)
    = Some (file, track) ->
    track
    = join_pieces seg_empty
        (pieces from_wav initial_state (sort_by_index segments))
    /\ 0 <= elided_ms from_wav initial_state (sort_by_index segments)
         <= 20 * Z.of_nat (length segments)
    /\ forall seg clip,
         In seg segments -> from_wav (final_audio_file seg) = Some clip ->
         slot_start seg + seg_len (faded clip)
         <= pieces_ms (pieces from_wav initial_state (sort_by_index segments))
            + elided_ms from_wav initial_state (sort_by_index segments).
Proof.
  intros segments session_id file track Hexp.
  unfold _combine_audio_segments in Hexp.
  destruct segments as [|s0 rest]; [discriminate|].
  destruct (combine_loop from_wav initial_state (sort_by_index (s0 :: rest)))
    as [st|] eqn:Hrun; [|discriminate].
  destruct (export_wav _ _); [|discriminate].
  cbn [exported] in Hexp. injection Hexp as _ <-.
  split; [exact (combine_loop_pieces _ _ _ Hrun)|].
  split.
  - rewrite <- (Permutation_length (sort_by_index_perm (s0 :: rest))).
    apply elided_ms_bounds.
  - intros seg clip Hin Hclip.
    destruct (combine_loop_covers _ _ _ Hrun) as [_ Hcov].
    assert (Hin' : In seg (sort_by_index (s0 :: rest))).
    { apply (Permutation_in seg (Permutation_sym (sort_by_index_perm _))).
      exact Hin. }
    specialize (Hcov seg clip Hin' Hclip).
    cbn [initial_state last_end_time] in Hcov. lia.
Qed.

(** C4, as the code has it.  When the slot of a clip starts after the
    cursor, the iteration succeeds as soon as the clip loads.  For a gap of
    more than 20 ms a silence made for exactly the milliseconds of the gap
    is appended to the track so far, and the clip after it.  A gap of at
    most 20 ms is not filled: the clip is appended to the track so far, so
    it begins at the end of that track, wherever the cursor is. *)
Theorem gap_is_filled_or_dropped :
  forall (st : mix_state) (seg : segment) (clip : AudioSegment),
    from_wav (final_audio_file seg) = Some clip ->
    last_end_time st < slot_start seg ->
    exists st',
      add_segment from_wav st seg = Some st'
      /\ (20 < gap_to st seg ->
          combined_audio st'
          = seg_add (seg_add (combined_audio st) (seg_silent (gap_to st seg)))
              (faded clip))
      /\ (gap_to st seg <= 20 ->
          combined_audio st' = seg_add (combined_audio st) (faded clip)
          /\ clip_offset st seg = seg_len (combined_audio st)).
Proof.
  intros st seg clip Hclip Hafter.
  eexists. split; [apply (add_segment_loaded st seg clip Hclip)|].
  cbn [combined_audio]. unfold clip_offset, with_gap_silence, gap_to.
  apply Z.ltb_lt in Hafter. rewrite Hafter. apply Z.ltb_lt in Hafter.
  split; intros Hgap.
  - apply Z.ltb_lt in Hgap. now rewrite Hgap.
  - apply Z.ltb_ge in Hgap. rewrite Hgap. split; reflexivity.
Qed.

(** C5, as the code has it.  When the slot of a clip starts at or before the
    cursor, the iteration succeeds as soon as the clip loads; the faded clip
    is appended to the track so far, which is left as it is, and no silence
    is inserted.  The clip thus begins at the end of the track so far, which
    is the cursor only while the cursor is the length of the track. *)
Theorem overlap_is_appended :
  forall (st : mix_state) (seg : segment) (clip : AudioSegment),
    from_wav (final_audio_file seg) = Some clip ->
    slot_start seg <= last_end_time st ->
    add_segment from_wav st seg
    = Some {| combined_audio := seg_add (combined_audio st) (faded clip);
              last_end_time := slot_start seg + seg_len (faded clip) |}
    /\ clip_offset st seg = seg_len (combined_audio st)
    /\ (last_end_time st = seg_len (combined_audio st) ->
        clip_offset st seg = last_end_time st).
Proof.
  intros st seg clip Hclip Hover.
  assert (Hsame : with_gap_silence st (slot_start seg) = combined_audio st).
  { unfold with_gap_silence. apply Z.ltb_ge in Hover. now rewrite Hover. }
  rewrite (add_segment_loaded st seg clip Hclip). unfold clip_offset.
  rewrite Hsame. split; [reflexivity|split; [reflexivity|]].
  intros Hinv. now rewrite Hinv.
Qed.

(** C9.  On an empty list nothing is exported and the empty path is
    returned; whenever a track is exported, also one without content, the
    path of the exported file is returned and it is not the empty path. *)
Theorem empty_input_gives_no_track :
  (forall session_id,
      _combine_audio_segments from_wav export_wav [] session_id
      = {| returned_path := EmptyString; exported := None |})
  /\
  (forall segments session_id file track,
      exported
        (_combine_audio_segments from_wav export_wav segments session_id)
      = Some (file, track) ->
      returned_path
        (_combine_audio_segments from_wav export_wav segments session_id)
      = file
      /\ file <> EmptyString).
Proof.
  split; [reflexivity|].
  intros segments session_id file track.
  unfold _combine_audio_segments.
  destruct segments as [|s0 rest]; [discriminate|].
  destruct (combine_loop from_wav initial_state _) as [st|]; [|discriminate].
  destruct (export_wav _ _); [|discriminate].
  cbn [exported returned_path]. intros [= <- _].
  split; [reflexivity|apply path_join_nonempty].
Qed.

End Runs.

Import MsFrames Sessions.

(** A clip of 1 s at 0 ms and a clip of 0.4 s at 1500 ms, with a silence
    made for 500 ms between them: the cursor ends at 1900 ms, the end of the
    last clip and the sum of the three durations. *)
Lemma cursor_is_slot_end_witness :
  every_step clips_on_disk on_cursor initial_state
    (sort_by_index spaced_session) = true
  /\ match combine_loop clips_on_disk initial_state
             (sort_by_index spaced_session) with
     | Some st =>
         (exists clip,
             clips_on_disk "clip_400.wav" = Some clip
             /\ last_end_time st
                = slot_start (seg 1 "00:01:500" "clip_400.wav")
                  + seg_len (faded clip))
         /\ last_end_time st
            = pieces_ms
                (pieces clips_on_disk initial_state
                   (sort_by_index spaced_session))
         /\ last_end_time st = 1900
     | None => False
     end.
Proof.
  split; [reflexivity|].
  destruct (combine_loop (P := ms_frames) clips_on_disk initial_state
              (sort_by_index spaced_session)) as [st|] eqn:Hrun.
  - destruct (cursor_is_slot_end (P := ms_frames) clips_on_disk)
      as [Hlast Hsum].
    split.
    + exact (Hlast [seg 0 "00:00:000" "clip_1000.wav"]
               (seg 1 "00:01:500" "clip_400.wav") st Hrun).
    + pose proof (Hsum (sort_by_index spaced_session) st eq_refl Hrun) as Hcur.
      split; [exact Hcur|]. rewrite Hcur. reflexivity.
  - vm_compute in Hrun. discriminate Hrun.
Defined.

(** C2 fails as stated: with clips of 100 ms at 0 ms and 50 ms, the second
    iteration appends 100 ms to a track of 100 ms and moves the cursor from
    100 ms to 150 ms; the track and the parts appended are 200 ms long. *)
Lemma cursor_behind_track_after_overlap :
  option_map
    (fun st => (last_end_time st, seg_len (combined_audio st)))
    (state_after 1 crowded_session) = Some (100, 100)
  /\ option_map
       (fun st => (last_end_time st, seg_len (combined_audio st)))
       (state_after 2 crowded_session) = Some (150, 200)
  /\ pieces_ms
       (pieces clips_on_disk initial_state
          (firstn 2 (sort_by_index crowded_session))) = 200.
Proof. split; [|split]; vm_compute; reflexivity. Qed.

Lemma track_covers_slots_witness :
  exists file track,
    exported
      (_combine_audio_segments clips_on_disk disk_export overlap_session "demo")
    = Some (file, track)
    /\ track
       = join_pieces seg_empty
           (pieces clips_on_disk initial_state (sort_by_index overlap_session))
    /\ slot_start (seg 2 "00:02:500" "clip_400.wav")
       + seg_len (faded (tone 400))
       <= pieces_ms
            (pieces clips_on_disk initial_state (sort_by_index overlap_session))
          + elided_ms clips_on_disk initial_state
              (sort_by_index overlap_session).
Proof.
  destruct (exported
              (_combine_audio_segments (P := ms_frames) clips_on_disk
                 disk_export overlap_session "demo"))
    as [[file track]|] eqn:Hexp.
  - exists file, track. split; [reflexivity|].
    destruct (track_covers_slots (P := ms_frames) clips_on_disk disk_export
                overlap_session "demo" file track Hexp) as [Htrack [_ Hcov]].
    split; [exact Htrack|].
    apply Hcov.
    + right. right. left. reflexivity.
    + reflexivity.
  - vm_compute in Hexp. discriminate Hexp.
Defined.

(** C3 fails as stated: a single clip of 100 ms whose slot starts at 10 ms
    ends at 110 ms on the time line; the gap of 10 ms is not filled and the
    exported track is 100 ms long. *)
Lemma late_start_track_is_short :
  option_map (fun out => seg_len (snd out))
    (exported
       (_combine_audio_segments clips_on_disk disk_export late_start_session
          "demo"))
  = Some 100
  /\ In (seg 0 "00:00:010" "clip_100.wav") late_start_session
  /\ clips_on_disk "clip_100.wav" = Some (tone 100)
  /\ slot_start (seg 0 "00:00:010" "clip_100.wav") + seg_len (tone 100) = 110.
Proof.
  split; [vm_compute; reflexivity|].
  split; [now left|]. split; reflexivity.
Qed.

(** After a first clip of 100 ms: a slot at 500 ms is 400 ms after the
    cursor, a slot at 110 ms is 10 ms after it. *)
Lemma gap_is_filled_or_dropped_witness :
  state_after 1 crowded_session = Some one_clip_state
  /\
  (exists st',
      add_segment clips_on_disk one_clip_state
        (seg 1 "00:00:500" "clip_1000.wav") = Some st'
      /\ combined_audio st'
         = seg_add (seg_add (combined_audio one_clip_state) (seg_silent 400))
             (faded (tone 1000)))
  /\
  (exists st',
      add_segment clips_on_disk one_clip_state
        (seg 1 "00:00:110" "clip_100.wav") = Some st'
      /\ combined_audio st'
         = seg_add (combined_audio one_clip_state) (faded (tone 100))).
Proof.
  split; [reflexivity|]. split.
  - destruct (gap_is_filled_or_dropped (P := ms_frames) clips_on_disk
                one_clip_state (seg 1 "00:00:500" "clip_1000.wav") (tone 1000)
                eq_refl eq_refl) as [st' [Hstep [Hfill _]]].
    exists st'. split; [exact Hstep|]. exact (Hfill eq_refl).
  - destruct (gap_is_filled_or_dropped (P := ms_frames) clips_on_disk
                one_clip_state (seg 1 "00:00:110" "clip_100.wav") (tone 100)
                eq_refl eq_refl) as [st' [Hstep [_ Hdrop]]].
    exists st'. split; [exact Hstep|].
    refine (proj1 (Hdrop _)). discriminate.
Defined.

(** C4 fails as stated: with slots at 10 ms and 120 ms and clips of 100 ms,
    the second iteration starts with the cursor at 110 ms and a gap of
    10 ms, inserts no silence, and the clip begins at 100 ms in the track,
    not at the cursor. *)
Lemma small_gap_clip_not_at_cursor :
  option_map
    (fun st => (last_end_time st, seg_len (combined_audio st),
                gap_to st (seg 1 "00:00:120" "clip_100.wav"),
                clip_offset st (seg 1 "00:00:120" "clip_100.wav")))
    (state_after 1 small_gaps_session) = Some (110, 100, 10, 100).
Proof. vm_compute. reflexivity. Qed.

(** After a first clip of 100 ms the cursor and the track are at 100 ms; the
    slot at 50 ms of the second clip of [crowded_session] is before the
    cursor. *)
Lemma overlap_is_appended_witness :
  state_after 1 crowded_session = Some one_clip_state
  /\ slot_start (seg 1 "00:00:050" "clip_100.wav") = 50
  /\ last_end_time one_clip_state = 100
  /\ add_segment clips_on_disk one_clip_state
       (seg 1 "00:00:050" "clip_100.wav")
     = Some {| combined_audio :=
                 seg_add (combined_audio one_clip_state) (faded (tone 100));
               last_end_time :=
                 slot_start (seg 1 "00:00:050" "clip_100.wav")
                 + seg_len (faded (tone 100)) |}
  /\ clip_offset one_clip_state (seg 1 "00:00:050" "clip_100.wav") = 100.
Proof.
  split; [reflexivity|]. split; [reflexivity|]. split; [reflexivity|].
  destruct (overlap_is_appended (P := ms_frames) clips_on_disk one_clip_state
              (seg 1 "00:00:050" "clip_100.wav") (tone 100) eq_refl)
    as [Hstep [_ Hoffset]].
  - discriminate.
  - split; [exact Hstep|]. now rewrite Hoffset.
Defined.

(** C5 fails as stated: with slots at 0 ms, 50 ms and 120 ms and clips of
    100 ms, the third iteration starts with the cursor at 150 ms and the
    track 200 ms long; the slot at 120 ms is before the cursor, and the clip
    begins at 200 ms in the track, not at the cursor. *)
Lemma overlap_clip_not_at_cursor :
  option_map
    (fun st => (last_end_time st, seg_len (combined_audio st),
                slot_start (seg 2 "00:00:120" "clip_100.wav"),
                clip_offset st (seg 2 "00:00:120" "clip_100.wav")))
    (state_after 2 crowded_session) = Some (150, 200, 120, 200).
Proof. vm_compute. reflexivity. Qed.

Lemma empty_input_gives_no_track_witness :
  exists file track,
    exported
      (_combine_audio_segments clips_on_disk disk_export empty_clip_session
         "demo")
    = Some (file, track)
    /\ seg_len track = 0
    /\ returned_path
         (_combine_audio_segments clips_on_disk disk_export empty_clip_session
            "demo")
       = file
    /\ file <> EmptyString.
Proof.
  exists "data/output/dubbed_audio_demo.wav"%string, [].
  split; [reflexivity|]. split; [reflexivity|].
  apply (proj2 (empty_input_gives_no_track (P := ms_frames) clips_on_disk
                  disk_export)
           empty_clip_session "demo"%string
           "data/output/dubbed_audio_demo.wav"%string []).
  reflexivity.
Defined.

End TrackAssemblerFacts.

(** ** Further properties of the track assembler *)

Module AssemblerExtras.
Import TimeCodec TrackAssembler AssemblerMeasures TrackAssemblerFacts.

Lemma insert_by_index_sorted (s : segment) (sorted : list segment) :
  StronglySorted index_le sorted ->
  StronglySorted index_le (insert_by_index s sorted).
Proof.
  induction 1 as [|h t Ht IH Hh]; simpl.
  - constructor; constructor.
  - destruct (Z.leb_spec (segment_index s) (segment_index h)) as [Hle|Hgt].
    + constructor; [now constructor|].
      constructor; [exact Hle|].
      eapply Forall_impl; [|exact Hh]. unfold index_le. intros; lia.
    + constructor; [exact IH|].
      apply (Permutation_Forall (Permutation_sym (insert_by_index_perm s t))).
      constructor; [unfold index_le; lia|exact Hh].
Qed.

Lemma sort_by_index_sorted (segments : list segment) :
  StronglySorted index_le (sort_by_index segments).
Proof.
  induction segments as [|s rest IH]; simpl; [constructor|].
  now apply insert_by_index_sorted.
Qed.

(** Two sorted lists with the same segments and no repeated index are the
    same list. *)
Lemma sorted_perm_unique (l l' : list segment) :
  StronglySorted index_le l -> StronglySorted index_le l' ->
  Permutation l l' -> NoDup (map segment_index l) -> l = l'.
Proof.
  intros Hl. revert l'. induction Hl as [|a l Hl IH Ha]; intros l' Hl' Hp Hnd.
  - now apply Permutation_nil in Hp.
  - destruct Hl' as [|b l' Hl' Hb].
    + apply Permutation_sym, Permutation_nil in Hp. discriminate.
    + assert (Hab : a = b).
      { assert (Hin : In a (b :: l')).
        { apply (Permutation_in a Hp). now left. }
        assert (Hin' : In b (a :: l)).
        { apply (Permutation_in b (Permutation_sym Hp)). now left. }
        destruct Hin as [E|Hin]; [now symmetry|].
        destruct Hin' as [E|Hin']; [exact E|].
        rewrite Forall_forall in Ha, Hb.
        pose proof (Ha b Hin') as H1. pose proof (Hb a Hin) as H2.
        unfold index_le in H1, H2.
        inversion Hnd as [|? ? Hnotin _]; subst. exfalso. apply Hnotin.
        replace (segment_index a) with (segment_index b) by lia.
        now apply in_map. }
      subst b. f_equal. apply IH.
      * exact Hl'.
      * now apply Permutation_cons_inv in Hp.
      * now inversion Hnd.
Qed.

(** A list whose indices increase is left as it is by the sort. *)
Lemma sort_by_index_increasing (segments : list segment) :
  StronglySorted index_le segments -> sort_by_index segments = segments.
Proof.
  induction 1 as [|a l Hl IH Ha]; simpl; [reflexivity|].
  rewrite IH. destruct l as [|b l]; [reflexivity|].
  simpl. inversion Ha as [|? ? Hab _]; subst. unfold index_le in Hab.
  apply Z.leb_le in Hab. now rewrite Hab.
Qed.

Section Runs.

Context {P : Pydub}.
Variable from_wav : string -> option AudioSegment.
Variable export_wav : string -> AudioSegment -> bool.

Lemma combine_loop_unreadable (segments : list segment) (bad : segment) :
  In bad segments -> from_wav (final_audio_file bad) = None ->
  forall st, combine_loop from_wav st segments = None.
Proof.
  induction segments as [|s rest IH]; intros Hin Hbad st; [destruct Hin|].
  simpl. destruct Hin as [->|Hin].
  - unfold add_segment. now rewrite Hbad.
  - destruct (add_segment from_wav st s); [now apply IH|reflexivity].
Qed.

(** X1.  One clip that cannot be loaded makes the whole assembly return the
    empty path and export nothing, whatever the other clips are. *)
Theorem unreadable_clip_aborts_assembly :
  forall (segments : list segment) (session_id : string) (bad : segment),
    In bad segments -> from_wav (final_audio_file bad) = None ->
    _combine_audio_segments from_wav export_wav segments session_id = no_track.
Proof.
  intros segments session_id bad Hin Hbad.
  unfold _combine_audio_segments.
  destruct segments as [|s0 rest]; [reflexivity|].
  rewrite (combine_loop_unreadable (sort_by_index (s0 :: rest)) bad);
    [reflexivity| |exact Hbad].
  apply (Permutation_in bad (Permutation_sym (sort_by_index_perm _))).
  exact Hin.
Qed.

(** X2.  The outcome of the assembly does not depend on the order in which
    the segments are given, as long as no two of them have the same index. *)
Theorem assembly_ignores_input_order :
  forall (segments segments' : list segment) (session_id : string),
    Permutation segments segments' ->
    NoDup (map segment_index segments) ->
    _combine_audio_segments from_wav export_wav segments session_id
    = _combine_audio_segments from_wav export_wav segments' session_id.
Proof.
  intros segments segments' session_id Hp Hnd.
  assert (Hsort : sort_by_index segments = sort_by_index segments').
  { apply sorted_perm_unique; try apply sort_by_index_sorted.
    - rewrite (sort_by_index_perm segments), Hp.
      symmetry. apply sort_by_index_perm.
    - apply (Permutation_NoDup (l := map segment_index segments));
        [|exact Hnd].
      apply Permutation_map, Permutation_sym, sort_by_index_perm. }
  unfold _combine_audio_segments.
  destruct segments as [|s0 rest], segments' as [|s0' rest'].
  - reflexivity.
  - apply Permutation_nil in Hp. discriminate.
  - apply Permutation_sym, Permutation_nil in Hp. discriminate.
  - now rewrite Hsort.
Qed.

End Runs.

End AssemblerExtras.

Module AssemblerExtrasWitnesses.
Import TimeCodec TrackAssembler AssemblerMeasures AssemblerExtras.
Import MsFrames Sessions MoreSessions.

Lemma unreadable_clip_aborts_assembly_witness :
  _combine_audio_segments clips_on_disk disk_export broken_session "demo"
  = no_track.
Proof.
  apply (unreadable_clip_aborts_assembly (P := ms_frames) clips_on_disk
           disk_export broken_session "demo"%string
           (seg 1 "00:01:000" "missing.wav")).
  - right. left. reflexivity.
  - reflexivity.
Defined.

Lemma assembly_ignores_input_order_witness :
  _combine_audio_segments clips_on_disk disk_export spaced_session "demo"
  = _combine_audio_segments clips_on_disk disk_export (rev spaced_session)
      "demo".
Proof.
  apply (assembly_ignores_input_order (P := ms_frames) clips_on_disk
           disk_export spaced_session (rev spaced_session) "demo"%string).
  - apply perm_swap.
  - repeat constructor; simpl; intuition discriminate.
Defined.

End AssemblerExtrasWitnesses.

(** ** Further properties of the time codec *)

Module TimeCodecExtras.
Import PyStr TimeCodec PyStrFacts TimeFields.

Lemma digit_of_nonneg (c : ascii) (d : Z) : digit_of c = Some d -> 0 <= d.
Proof.
  unfold digit_of. destruct (_ && _) eqn:E; [|discriminate].
  apply andb_prop in E. destruct E as [E _]. apply Z.leb_le in E.
  intros [= <-]. lia.
Qed.

Lemma int_digits_nonneg (s : str) :
  forall acc prev v, 0 <= acc -> int_digits acc prev s = Some v -> 0 <= v.
Proof.
  induction s as [|c s IH]; intros acc prev v Hacc; simpl.
  - destruct prev; [intros [= <-]; exact Hacc|discriminate].
  - destruct (digit_of c) as [d|] eqn:Hd.
    + intros H. apply (IH (10 * acc + d) true v); [|exact H].
      pose proof (digit_of_nonneg c d Hd). lia.
    + destruct (is_underscore c).
      * destruct prev; [intros H; now apply (IH acc false v)|discriminate].
      * destruct (prev && _); [intros [= <-]; exact Hacc|discriminate].
Qed.

Lemma int_lstrip_incl (s : str) (c : ascii) : In c (int_lstrip s) -> In c s.
Proof.
  induction s as [|a s IH]; simpl; [tauto|].
  destruct (is_int_space a); [intros H; right; now apply IH|tauto].
Qed.

(** Without a minus sign [int] reads no negative number. *)
Lemma py_int_nonneg (s : str) (v : Z) :
  ~ In minus s -> py_int s = Some v -> 0 <= v.
Proof.
  intros Hno. unfold py_int.
  destruct (int_max_str_digits <? count_digits s); [discriminate|].
  destruct (int_lstrip s) as [|c rest] eqn:Hs; [discriminate|].
  destruct (Ascii.eqb_spec c "-"%char) as [->|_].
  - exfalso. apply Hno. apply int_lstrip_incl. rewrite Hs. now left.
  - destruct (Ascii.eqb c "+"%char); apply int_digits_nonneg; lia.
Qed.

Lemma str_split_chars (sep : ascii) (s : str) :
  forall f c, In f (str_split sep s) -> In c f -> In c s.
Proof.
  induction s as [|a s IH]; intros f c Hf Hc.
  - simpl in Hf. destruct Hf as [<-|[]]. destruct Hc.
  - simpl in Hf. destruct (Ascii.eqb a sep).
    + destruct Hf as [<-|Hf]; [destruct Hc|]. right. now apply (IH f).
    + destruct (str_split sep s) as [|g gs] eqn:Hsp.
      * destruct Hf as [<-|[]]. destruct Hc as [<-|[]]. now left.
      * destruct Hf as [<-|Hf].
        -- destruct Hc as [<-|Hc]; [now left|].
           right. apply (IH g); [now left|exact Hc].
        -- right. apply (IH f); [now right|exact Hc].
Qed.

Lemma ljust_no_minus (f : str) :
  ~ In minus f -> ~ In minus (str_ljust 3 zero_char f).
Proof.
  intros Hno Hin. unfold str_ljust in Hin. apply in_app_or in Hin.
  destruct Hin as [Hin|Hin]; [now apply Hno|].
  apply repeat_spec in Hin. discriminate Hin.
Qed.

(** X5.  A text without a minus sign is never parsed to a negative number of
    milliseconds. *)
Theorem parse_without_minus_is_nonnegative :
  forall text : string,
    ~ In minus (of_string text) -> 0 <= _time_to_milliseconds text.
Proof.
  intros text Hno. unfold _time_to_milliseconds, time_to_ms.
  assert (Hfield : forall f, In f (str_split colon (of_string text)) ->
                             ~ In minus f).
  { intros f Hf Hin. apply Hno. now apply (str_split_chars colon _ f). }
  destruct (parse_fields (str_split colon (of_string text))) as [v|] eqn:Hp;
    [|lia].
  unfold parse_fields in Hp.
  destruct (str_split colon (of_string text))
    as [|p0 [|p1 [|p2 [|p3 [|p4 rest]]]]]; try discriminate.
  - destruct (py_int p0) as [m|] eqn:H0; [|discriminate].
    destruct (py_int p1) as [s|] eqn:H1; [|discriminate].
    destruct (py_int (str_ljust 3 zero_char p2)) as [ms|] eqn:H2;
      [|discriminate].
    injection Hp as <-.
    apply py_int_nonneg in H0; [|apply Hfield; simpl; auto].
    apply py_int_nonneg in H1; [|apply Hfield; simpl; auto].
    apply py_int_nonneg in H2;
      [|apply ljust_no_minus, Hfield; simpl; auto].
    lia.
  - destruct (py_int p0) as [h|] eqn:H0; [|discriminate].
    destruct (py_int p1) as [m|] eqn:H1; [|discriminate].
    destruct (py_int p2) as [s|] eqn:H2; [|discriminate].
    destruct (py_int (str_ljust 3 zero_char p3)) as [ms|] eqn:H3;
      [|discriminate].
    injection Hp as <-.
    apply py_int_nonneg in H0; [|apply Hfield; simpl; auto].
    apply py_int_nonneg in H1; [|apply Hfield; simpl; auto].
    apply py_int_nonneg in H2; [|apply Hfield; simpl; auto].
    apply py_int_nonneg in H3;
      [|apply ljust_no_minus, Hfield; simpl; auto 6].
    lia.
Qed.

Lemma parse_without_minus_is_nonnegative_witness :
  0 <= _time_to_milliseconds " 1_0:02 :5".
Proof.
  apply parse_without_minus_is_nonnegative.
  cbn. intuition discriminate.
Defined.

(** X6.  The form with three fields is the form with four fields and zero
    hours: putting before a text [MM:SS:mmm] an hours field that [int] reads
    as 0 does not change what it is parsed to, also when that is the 0 of a
    malformed text. *)
Theorem three_fields_are_zero_hours :
  forall (short long : string) (hh mm ss ms : str),
    no_colon hh = true -> no_colon mm = true -> no_colon ss = true ->
    no_colon ms = true -> py_int hh = Some 0 ->
    of_string short = str_join colon [mm; ss; ms] ->
    of_string long = str_join colon [hh; mm; ss; ms] ->
    _time_to_milliseconds long = _time_to_milliseconds short.
Proof.
  intros short long hh mm ss ms Hhh Hmm Hss Hms Hzero Hshort Hlong.
  unfold _time_to_milliseconds, time_to_ms. rewrite Hshort, Hlong.
  rewrite !str_split_join; try discriminate;
    try (repeat constructor; assumption).
  unfold parse_fields. rewrite Hzero.
  destruct (py_int mm), (py_int ss), (py_int (str_ljust 3 zero_char ms));
    reflexivity.
Qed.

Lemma three_fields_are_zero_hours_witness :
  _time_to_milliseconds "00:01:02:5" = _time_to_milliseconds "01:02:5".
Proof.
  apply (three_fields_are_zero_hours "01:02:5" "00:01:02:5"
           (of_string "00") (of_string "01") (of_string "02") (of_string "5"));
    reflexivity.
Defined.

End TimeCodecExtras.

(** ** Further properties of the duration fitter *)

Module DurationFitterExtras.
Import DurationFitter Binary64Facts DurationFitterFacts FileStore.

(** X8.  Fitting again a clip that was fitted, to the same target, never
    meets an extreme ratio and writes a clip of the same number of samples,
    whatever the stretch returns. *)
Theorem refit_keeps_sample_count :
  forall load stretch1 stretch2 raw adjusted again target y sr w1 y1 w2 y2,
    load raw = Some (y, sr) ->
    _adjust_audio_speed load stretch1 raw adjusted target = Fitted w1 y1 ->
    _adjust_audio_speed (write_file load adjusted (y1, sr)) stretch2
      adjusted again target = Fitted w2 y2 ->
    length y2 = length y1 /\ w2 = false.
Proof.
  intros load s1 s2 raw adjusted again target y sr w1 y1 w2 y2
    Hload Hfit1 Hfit2.
  assert (Hload2 : write_file load adjusted (y1, sr) adjusted = Some (y1, sr)).
  { unfold write_file. now rewrite String.eqb_refl. }
  destruct (fitted_inv _ _ _ _ _ _ _ _ _ Hload Hfit1)
    as [Hsr [Htar [ys1 [_ [Hy1 _]]]]].
  destruct (fitted_inv _ _ _ _ _ _ _ _ _ Hload2 Hfit2)
    as [_ [_ [ys2 [_ [Hy2 _]]]]].
  pose proof (inject_Z_pos sr Hsr) as Hsrq.
  assert (Hpos : (0 < target * inject_Z sr)%Q) by now apply Qmult_pos.
  pose proof (count_nonneg _ Hpos) as Hnn. fold (float_mul target (inject_Z sr)) in Hnn.
  assert (Hlen1 : Z.of_nat (length y1)
                  = int_of_float (float_mul target (inject_Z sr))).
  { rewrite Hy1. now apply fix_length_length. }
  split.
  - apply Nat2Z.inj. rewrite Hlen1, Hy2. now apply fix_length_length.
  - (* the second ratio lies between 1/2 and 2 *)
    unfold _adjust_audio_speed in Hfit2. rewrite Hload2 in Hfit2.
    destruct (sr =? 0); [discriminate|].
    destruct (Qle_bool (duration_of (length y1) sr) 0) eqn:Hcur;
      [discriminate|].
    destruct (Qle_bool target 0); [discriminate|]. cbn [orb] in Hfit2.
    destruct (s2 y1 _); [|discriminate].
    destruct (_ && (0 <? _)); [discriminate|].
    injection Hfit2 as <- _.
    apply Qle_bool_false in Hcur.
    set (n := int_of_float (float_mul target (inject_Z sr))) in *.
    assert (Hdur : (duration_of (length y1) sr == inject_Z n / inject_Z sr)%Q).
    { unfold duration_of. now rewrite Hlen1. }
    assert (Hn : (0 < inject_Z n)%Q).
    { rewrite Hdur in Hcur.
      apply (Qmult_lt_compat_r _ _ (inject_Z sr) Hsrq) in Hcur.
      rewrite Qmult_0_l in Hcur.
      assert (E : (inject_Z n / inject_Z sr * inject_Z sr == inject_Z n)%Q)
        by (field; lra).
      now rewrite E in Hcur. }
    assert (Hn1 : (1 <= inject_Z n)%Q).
    { change 1%Q with (inject_Z 1). rewrite <- Zle_Qle.
      change 0%Q with (inject_Z 0) in Hn. rewrite <- Zlt_Qlt in Hn. lia. }
    assert (Hfactor : (target * inject_Z sr <= 2 * inject_Z n
                       /\ inject_Z n <= 2 * (target * inject_Z sr))%Q).
    { apply (count_within_factor_two _ Hpos).
      fold (float_mul target (inject_Z sr)). fold n.
      rewrite Zle_Qle. exact Hn1. }
    destruct Hfactor as [Hlo Hhi].
    assert (Hratio : (duration_of (length y1) sr / target
                      == inject_Z n / (target * inject_Z sr))%Q).
    { rewrite Hdur. field. split; lra. }
    apply negb_false_iff, andb_true_intro. split; apply Qle_bool_iff;
      rewrite Hratio.
    + apply Qle_shift_div_l; [exact Hpos|]. lra.
    + apply Qle_shift_div_r; [exact Hpos|]. lra.
Qed.

Lemma refit_keeps_sample_count_witness :
  _adjust_audio_speed
    (write_file Sessions.raw_files "segment_0001_adjusted.wav"
       ([1 # 2; 1 # 3; 1 # 4; 0; 0; 0]%Q, 24000))
    Sessions.resampling_stretch "segment_0001_adjusted.wav"
    "segment_0001_again.wav" (1 # 4000)
  = Fitted false [1 # 2; 1 # 3; 1 # 4; 0; 0; 0]%Q
  /\ length [1 # 2; 1 # 3; 1 # 4; 0; 0; 0]%Q
     = length [1 # 2; 1 # 3; 1 # 4; 0; 0; 0]%Q.
Proof.
  split; [reflexivity|].
  refine (proj1 (refit_keeps_sample_count Sessions.raw_files
                   Sessions.resampling_stretch Sessions.resampling_stretch
                   "segment_0001_raw.wav" "segment_0001_adjusted.wav"
                   "segment_0001_again.wav" (1 # 4000)
                   [1 # 2; 1 # 3; 1 # 4]%Q 24000 false
                   [1 # 2; 1 # 3; 1 # 4; 0; 0; 0]%Q false
                   [1 # 2; 1 # 3; 1 # 4; 0; 0; 0]%Q _ _ _)); reflexivity.
Defined.

End DurationFitterExtras.

(** ** Voice assignment *)

Module VoicesFacts.
Import Voices.

Lemma lookup_app {A : Type} (m : list (string * A)) (k : string) (v : A)
    (key : string) :
  lookup (m ++ [(k, v)]) key
  = match lookup m key with
    | Some x => Some x
    | None => if String.eqb k key then Some v else None
    end.
Proof.
  induction m as [|[k0 v0] m IH]; simpl; [reflexivity|].
  destruct (String.eqb k0 key); [reflexivity|exact IH].
Qed.

Lemma mem_In (x : string) (xs : list string) : mem x xs = true <-> In x xs.
Proof.
  unfold mem. rewrite existsb_exists. split.
  - intros [y [Hy E]]. apply String.eqb_eq in E. now subst.
  - intros H. exists x. split; [exact H|apply String.eqb_refl].
Qed.

Lemma choice_In (pick : nat) (seq : list string) (v : string) :
  choice pick seq = Some v -> In v seq.
Proof. unfold choice. apply nth_error_In. Qed.

Lemma choice_nonempty (pick : nat) (seq : list string) :
  seq <> [] -> exists v, choice pick seq = Some v.
Proof.
  intros Hne. unfold choice.
  destruct (nth_error seq (pick mod length seq)) as [v|] eqn:E;
    [now exists v|].
  apply nth_error_None in E.
  assert (length seq <> 0%nat) by (destruct seq; simpl; congruence).
  pose proof (Nat.mod_upper_bound pick (length seq)). lia.
Qed.

(** The comprehension as a filter of the table. *)
Lemma voices_by_gender_filter (styles : list (string * string))
    (gender : string) (used : list string) :
  voices_by_gender styles gender (Some used)
  = Some (map fst
            (filter (fun entry =>
                       String.eqb (lower (snd entry)) (lower gender)
                       && negb (mem (fst entry) used)) styles)).
Proof.
  induction styles as [|[name g] rest IH]; simpl; [reflexivity|].
  destruct (String.eqb (lower g) (lower gender)); simpl; [|exact IH].
  rewrite IH. now destruct (mem name used).
Qed.

(** In the table every name has one gender, written in lower case. *)
Lemma table_entry (name g : string) :
  In (name, g) SPEAKER_STYLES ->
  gender_of name = Some g /\ lower g = g
  /\ (g = "male"%string \/ g = "female"%string).
Proof.
  unfold SPEAKER_STYLES. simpl.
  intros H. repeat (destruct H as [[= <- <-]|H]; [vm_compute; auto|]).
  destruct H.
Qed.

Lemma gender_of_entry (name g : string) :
  gender_of name = Some g -> In (name, g) SPEAKER_STYLES.
Proof.
  unfold gender_of.
  generalize SPEAKER_STYLES as styles.
  induction styles as [|[k v] rest IH]; simpl; [discriminate|].
  destruct (String.eqb_spec k name) as [->|_].
  - intros [= ->]. now left.
  - intros H. right. now apply IH.
Qed.

(** The voices offered to a speaker whose gender reads [g]: the voices of
    that gender that are not in use. *)
Lemma pool_spec (gender g : string) (used pool : list string) (v : string) :
  lower gender = g ->
  get_voices_by_gender gender (Some used) = Some pool ->
  In v pool <-> has_gender g v = true /\ ~ In v used.
Proof.
  intros Hg. unfold get_voices_by_gender.
  rewrite voices_by_gender_filter. intros Hpool.
  assert (E : map fst
                (filter (fun entry =>
                           String.eqb (lower (snd entry)) (lower gender)
                           && negb (mem (fst entry) used)) SPEAKER_STYLES)
              = pool) by congruence.
  rewrite <- E. clear E Hpool.
  rewrite in_map_iff. split.
  - intros [[name g0] [E Hin]]. simpl in E. subst name.
    apply filter_In in Hin. destruct Hin as [Hin Htest].
    simpl in Htest. apply andb_prop in Htest. destruct Htest as [Hgen Hused].
    destruct (table_entry _ _ Hin) as [Hgo [Hlow _]].
    rewrite Hlow, Hg in Hgen. split.
    + unfold has_gender. now rewrite Hgo.
    + apply negb_true_iff in Hused. rewrite <- mem_In. congruence.
  - intros [Hhas Hused]. unfold has_gender in Hhas.
    destruct (gender_of v) as [g0|] eqn:Hgo; [|discriminate].
    apply String.eqb_eq in Hhas. subst g0.
    pose proof (gender_of_entry _ _ Hgo) as Hin.
    exists (v, g). split; [reflexivity|].
    apply filter_In. split; [exact Hin|]. simpl.
    destruct (table_entry _ _ Hin) as [_ [Hlow _]].
    rewrite Hlow, Hg, String.eqb_refl. simpl.
    apply negb_true_iff. destruct (mem v used) eqn:E; [|reflexivity].
    apply mem_In in E. contradiction.
Qed.

Lemma pool_known (gender : string) (used pool : list string) (v : string) :
  get_voices_by_gender gender (Some used) = Some pool ->
  In v pool -> In v get_all_voices.
Proof.
  unfold get_voices_by_gender. rewrite voices_by_gender_filter.
  intros Hpool.
  assert (E : map fst
                (filter (fun entry =>
                           String.eqb (lower (snd entry)) (lower gender)
                           && negb (mem (fst entry) used)) SPEAKER_STYLES)
              = pool) by congruence.
  rewrite <- E. clear E Hpool.
  intros Hin. apply in_map_iff in Hin.
  destruct Hin as [entry [<- Hin]]. apply filter_In in Hin.
  apply in_map. tauto.
Qed.

(** The cases of an assignment with a set of voices in use. *)
Lemma assign_cases (m : voice_map) (id gender : string) (used : list string)
    (pick : nat) :
  (exists voice, lookup m id = Some voice
     /\ assign_voice_to_speaker m id gender (Some used) pick
        = Some (Some voice, m))
  \/
  (lookup m id = None
   /\ exists pool voice,
        get_voices_by_gender gender (Some used) = Some pool
        /\ In voice (match pool with [] => get_all_voices | _ :: _ => pool end)
        /\ assign_voice_to_speaker m id gender (Some used) pick
           = Some (None, m ++ [(id, voice)])).
Proof.
  unfold assign_voice_to_speaker.
  destruct (lookup m id) as [voice|]; [left; now exists voice|].
  right. split; [reflexivity|].
  unfold get_voices_by_gender. rewrite voices_by_gender_filter.
  set (pool := map fst _).
  set (offered := match pool with [] => get_all_voices | _ :: _ => pool end).
  assert (Hne : offered <> []) by (unfold offered; destruct pool; discriminate).
  destruct (choice_nonempty pick offered Hne) as [voice Hv].
  exists pool, voice. rewrite Hv. repeat split.
  now apply choice_In in Hv.
Qed.

End VoicesFacts.

Module VoicesTheorems.
Import Voices VoicesFacts.

Lemma values_app (m : voice_map) (id voice : string) :
  values (m ++ [(id, voice)]) = values m ++ [voice].
Proof. unfold values. now rewrite map_app. Qed.

Lemma assign_known (m : voice_map) (id gender : string) (used : list string)
    (pick : nat) (ret : option string) (m' : voice_map) :
  assign_voice_to_speaker m id gender (Some used) pick = Some (ret, m') ->
  known_voices m -> known_voices m'.
Proof.
  intros Hassign Hm.
  destruct (assign_cases m id gender used pick)
    as [[voice [_ E]]|[_ [pool [voice [Hpool [Hin E]]]]]];
    rewrite E in Hassign; injection Hassign as _ <-; [exact Hm|].
  unfold known_voices. rewrite values_app. apply Forall_app.
  split; [exact Hm|]. constructor; [|constructor].
  destruct pool as [|v0 pool]; [exact Hin|].
  now apply (pool_known gender used (v0 :: pool)).
Qed.

(** X9.  Every voice that [get_speaker_voices] leaves in the dictionary is
    one of the voices of the table, if that held before the call: also for
    a gender that the table does not have, and also when the call raises. *)
Theorem assigned_voices_are_known :
  forall (pick : nat -> nat) (speakers_info : list speaker_profile)
         (m : voice_map),
    known_voices m ->
    known_voices (mapping_of (get_speaker_voices pick m speakers_info)).
Proof.
  intros pick speakers_info. unfold get_speaker_voices. generalize 0%nat.
  induction speakers_info as [|p rest IH]; intros i m Hm; [exact Hm|].
  cbn [speaker_voices_from].
  destruct (profile_speaker_id p) as [id|]; [|exact Hm].
  destruct (profile_gender p) as [gender|]; [|exact Hm].
  destruct (assign_voice_to_speaker m (strip id) (lower gender)
              (Some (values m)) (pick i)) as [[ret m']|] eqn:E; [|exact Hm].
  apply IH. now apply (assign_known _ _ _ _ _ _ _ E).
Qed.

Lemma assigned_voices_are_known_witness :
  known_voices (mapping_of (get_speaker_voices (fun i => i * 7)%nat [] cast)).
Proof.
  apply assigned_voices_are_known. constructor.
Defined.

Lemma assign_extends (m : voice_map) (id gender : string) (used : list string)
    (pick : nat) (ret : option string) (m' : voice_map) :
  assign_voice_to_speaker m id gender (Some used) pick = Some (ret, m') ->
  (exists added, m' = m ++ added)
  /\ (forall key voice, lookup m key = Some voice ->
                        lookup m' key = Some voice)
  /\ exists voice, lookup m' id = Some voice.
Proof.
  intros Hassign.
  destruct (assign_cases m id gender used pick)
    as [[voice [Hl E]]|[Hl [pool [voice [_ [_ E]]]]]];
    rewrite E in Hassign; injection Hassign as _ <-.
  - split; [exists []; now rewrite app_nil_r|].
    split; [auto|now exists voice].
  - split; [now exists [(id, voice)]|]. split.
    + intros key v Hkey. now rewrite lookup_app, Hkey.
    + exists voice. now rewrite lookup_app, Hl, String.eqb_refl.
Qed.

Lemma speaker_voices_extend (pick : nat -> nat)
    (speakers_info : list speaker_profile) :
  forall i m,
    let m' := mapping_of (speaker_voices_from i pick m speakers_info) in
    (exists added, m' = m ++ added)
    /\ (forall key voice, lookup m key = Some voice ->
                          lookup m' key = Some voice).
Proof.
  induction speakers_info as [|p rest IH]; intros i m; cbn [speaker_voices_from].
  - split; [exists []; now rewrite app_nil_r|auto].
  - assert (Hsame : (exists added, m = m ++ added)
                    /\ (forall key voice, lookup m key = Some voice ->
                                          lookup m key = Some voice)).
    { split; [exists []; now rewrite app_nil_r|auto]. }
    destruct (profile_speaker_id p) as [id|]; [|exact Hsame].
    destruct (profile_gender p) as [gender|]; [|exact Hsame].
    destruct (assign_voice_to_speaker m (strip id) (lower gender)
                (Some (values m)) (pick i)) as [[ret m1]|] eqn:E;
      [|exact Hsame].
    destruct (assign_extends _ _ _ _ _ _ _ E) as [[a1 Ha1] [Hk1 _]].
    destruct (IH (S i) m1) as [[a2 Ha2] Hk2].
    split.
    + exists (a1 ++ a2). cbn zeta in Ha2. rewrite Ha2, Ha1.
      now rewrite app_assoc.
    + intros key voice Hkey. apply Hk2. now apply Hk1.
Qed.

(** X10.  A speaker that has a voice keeps it: [get_speaker_voices] only
    adds items at the end of the dictionary, and what it held for a key
    before the call it holds after it. *)
Theorem assigned_voices_are_kept :
  forall (pick : nat -> nat) (speakers_info : list speaker_profile)
         (m : voice_map),
    (exists added,
        mapping_of (get_speaker_voices pick m speakers_info) = m ++ added)
    /\ (forall key voice,
           lookup m key = Some voice ->
           lookup (mapping_of (get_speaker_voices pick m speakers_info)) key
           = Some voice).
Proof.
  intros pick speakers_info m.
  apply (speaker_voices_extend pick speakers_info 0 m).
Qed.

Lemma assigned_voices_are_kept_witness :
  lookup (mapping_of (get_speaker_voices (fun i => i * 7)%nat
                        [("Speaker 2", "sage")]%string cast))
    "Speaker 2" = Some "sage"%string.
Proof.
  apply (proj2 (assigned_voices_are_kept (fun i => i * 7)%nat cast
                  [("Speaker 2", "sage")]%string)).
  reflexivity.
Defined.

(** X11.  When [get_speaker_voices] returns, every listed speaker has a
    voice, stored under its name without the white space around it. *)
Theorem every_listed_speaker_has_a_voice :
  forall (pick : nat -> nat) (speakers_info : list speaker_profile)
         (m m' : voice_map),
    get_speaker_voices pick m speakers_info = Returned m' ->
    forall p, In p speakers_info ->
      exists id voice,
        profile_speaker_id p = Some id /\ lookup m' (strip id) = Some voice.
Proof.
  intros pick speakers_info. unfold get_speaker_voices. generalize 0%nat.
  induction speakers_info as [|q rest IH]; intros i m m' Hrun p Hin;
    [destruct Hin|].
  cbn [speaker_voices_from] in Hrun.
  destruct (profile_speaker_id q) as [id|] eqn:Hid; [|discriminate].
  destruct (profile_gender q) as [gender|]; [|discriminate].
  destruct (assign_voice_to_speaker m (strip id) (lower gender)
              (Some (values m)) (pick i)) as [[ret m1]|] eqn:E;
    [|discriminate].
  destruct Hin as [<-|Hin]; [|now apply (IH (S i) m1 m' Hrun)].
  destruct (assign_extends _ _ _ _ _ _ _ E) as [_ [_ [voice Hvoice]]].
  exists id, voice. split; [exact Hid|].
  destruct (speaker_voices_extend pick rest (S i) m1) as [_ Hkeep].
  cbn zeta in Hkeep. rewrite Hrun in Hkeep. now apply Hkeep.
Qed.

Lemma every_listed_speaker_has_a_voice_witness :
  exists id voice,
    profile_speaker_id (profile " Speaker 1 " "male") = Some id
    /\ lookup [("Speaker 1", "ash"); ("Speaker 2", "coral");
               ("Speaker 3", "echo")]%string (strip id) = Some voice.
Proof.
  apply (every_listed_speaker_has_a_voice (fun i => i * 7)%nat cast [] _
           eq_refl).
  right. right. left. reflexivity.
Defined.

End VoicesTheorems.

Module VoicesDistinct.
Import Voices VoicesFacts VoicesTheorems.

Lemma has_gender_exclusive (v : string) :
  has_gender "male" v = true -> has_gender "female" v = false.
Proof.
  unfold has_gender. destruct (gender_of v) as [g|]; [|discriminate].
  intros H. apply String.eqb_eq in H. now subst g.
Qed.

Lemma has_gender_exclusive' (v : string) :
  has_gender "female" v = true -> has_gender "male" v = false.
Proof.
  unfold has_gender. destruct (gender_of v) as [g|]; [|discriminate].
  intros H. apply String.eqb_eq in H. now subst g.
Qed.

Lemma voices_of_gender_app (g : string) (m : voice_map) (id voice : string) :
  voices_of_gender g (m ++ [(id, voice)])
  = (voices_of_gender g m + if has_gender g voice then 1 else 0)%nat.
Proof.
  unfold voices_of_gender. rewrite values_app, filter_app, length_app.
  simpl. now destruct (has_gender g voice).
Qed.

(** As long as fewer voices of a gender are in use than the table has, one
    of them is offered. *)
Lemma pool_not_empty (gender g : string) (m : voice_map) (pool : list string) :
  lower gender = g ->
  get_voices_by_gender gender (Some (values m)) = Some pool ->
  (voices_of_gender g m
   < length (filter (has_gender g) get_all_voices))%nat ->
  pool <> [].
Proof.
  intros Hg Hpool Hfew Hnil. subst pool.
  assert (Hincl : incl (filter (has_gender g) get_all_voices)
                    (filter (has_gender g) (values m))).
  { intros v Hv. apply filter_In in Hv. destruct Hv as [_ Hhas].
    apply filter_In. split; [|exact Hhas].
    destruct (mem v (values m)) eqn:E; [now apply mem_In|].
    exfalso.
    apply (proj2 (pool_spec gender g (values m) [] v Hg Hpool)).
    split; [exact Hhas|]. rewrite <- mem_In. congruence. }
  assert (Hnd : NoDup (filter (has_gender g) get_all_voices)).
  { apply NoDup_filter. vm_compute.
    repeat (constructor; [simpl; intuition discriminate|]). constructor. }
  pose proof (NoDup_incl_length Hnd Hincl) as Hlen.
  unfold voices_of_gender in Hfew. lia.
Qed.

Lemma nodup_snoc (l : list string) (v : string) :
  NoDup l -> ~ In v l -> NoDup (l ++ [v]).
Proof.
  intros Hl Hv.
  apply (Permutation_NoDup (l := v :: l)); [|now constructor].
  apply Permutation_cons_append.
Qed.

(** X12.  A speaker without a voice, whose gender still has a voice that no
    speaker uses, is given a voice of that gender that no speaker uses,
    whatever the random draw. *)
Theorem new_speaker_gets_unused_voice_of_gender :
  forall (m m' : voice_map) (id gender g : string) (pick : nat)
         (ret : option string) (free : string),
    lookup m id = None ->
    lower gender = g ->
    has_gender g free = true -> ~ In free (values m) ->
    assign_voice_to_speaker m id gender (Some (values m)) pick
    = Some (ret, m') ->
    exists voice,
      m' = m ++ [(id, voice)]
      /\ has_gender g voice = true /\ ~ In voice (values m).
Proof.
  intros m m' id gender g pick ret free Hnew Hg Hfree Hunused Hassign.
  destruct (assign_cases m id gender (values m) pick)
    as [[voice [Hl _]]|[_ [pool [voice [Hpool [Hin E]]]]]];
    [congruence|].
  rewrite E in Hassign. injection Hassign as _ <-.
  exists voice. split; [reflexivity|].
  assert (Hfreein : In free pool).
  { apply (pool_spec gender g (values m) pool free Hg Hpool). now split. }
  destruct pool as [|v0 pool]; [destruct Hfreein|].
  now apply (pool_spec gender g (values m) (v0 :: pool) voice Hg Hpool).
Qed.

Lemma new_speaker_gets_unused_voice_of_gender_witness :
  exists voice,
    [("Speaker 1", "ash"); ("Speaker 2", "onyx")]%string
    ++ [("Speaker 3", "verse")]%string
    = [("Speaker 1", "ash"); ("Speaker 2", "onyx")]%string
      ++ [("Speaker 3", voice)]%string
    /\ has_gender "male" voice = true
    /\ ~ In voice (values [("Speaker 1", "ash"); ("Speaker 2", "onyx")]%string).
Proof.
  apply (new_speaker_gets_unused_voice_of_gender
           [("Speaker 1", "ash"); ("Speaker 2", "onyx")]%string _
           "Speaker 3" "Male" "male" 5 None "echo");
    try reflexivity.
  simpl. intuition discriminate.
Defined.

Lemma profiles_of_gender_cons (g : string) (p : speaker_profile)
    (rest : list speaker_profile) :
  profiles_of_gender g (p :: rest)
  = ((match profile_gender p with
      | Some x => if String.eqb (lower x) g then 1 else 0
      | None => 0
      end) + profiles_of_gender g rest)%nat.
Proof.
  unfold profiles_of_gender. cbn [filter].
  destruct (profile_gender p) as [x|]; [|reflexivity].
  now destruct (String.eqb (lower x) g).
Qed.

Lemma distinct_from (pick : nat -> nat) (speakers_info : list speaker_profile) :
  forall i m,
    NoDup (values m) ->
    forallb binary_gender speakers_info = true ->
    (voices_of_gender "male" m + profiles_of_gender "male" speakers_info
     <= 5)%nat ->
    (voices_of_gender "female" m + profiles_of_gender "female" speakers_info
     <= 6)%nat ->
    NoDup (values (mapping_of (speaker_voices_from i pick m speakers_info))).
Proof.
  induction speakers_info as [|p rest IH]; intros i m Hnd Hbin Hmale Hfemale;
    cbn [speaker_voices_from]; [exact Hnd|].
  cbn [forallb] in Hbin. apply andb_prop in Hbin. destruct Hbin as [Hp Hbin].
  unfold binary_gender in Hp.
  rewrite profiles_of_gender_cons in Hmale, Hfemale.
  destruct (profile_speaker_id p) as [id|]; [|exact Hnd].
  destruct (profile_gender p) as [gender|]; [|exact Hnd].
  destruct (assign_voice_to_speaker m (strip id) (lower gender)
              (Some (values m)) (pick i)) as [[ret m1]|] eqn:E; [|exact Hnd].
  destruct (assign_cases m (strip id) (lower gender) (values m) (pick i))
    as [[voice [_ E']]|[_ [pool [voice [Hpool [Hin E']]]]]];
    rewrite E' in E; injection E as _ <-.
  - (* the speaker has a voice already *)
    apply IH; try assumption.
    + destruct (String.eqb (lower gender) "male"); lia.
    + destruct (String.eqb (lower gender) "female"); lia.
  - (* a voice is drawn *)
    apply orb_prop in Hp.
    destruct Hp as [Hg|Hg]; apply String.eqb_eq in Hg; rewrite Hg in *;
      change (String.eqb "male" "male") with true in *;
      change (String.eqb "male" "female") with false in *;
      change (String.eqb "female" "male") with false in *;
      change (String.eqb "female" "female") with true in *;
      cbn iota in Hmale, Hfemale.
    + assert (Hlow : lower "male" = "male"%string) by reflexivity.
      assert (Hne : pool <> []).
      { apply (pool_not_empty "male" "male" m pool Hlow Hpool).
        change (length (filter (has_gender "male") get_all_voices)) with 5%nat.
        lia. }
      destruct pool as [|v0 pool]; [congruence|].
      apply (pool_spec "male" "male" (values m) _ voice Hlow Hpool) in Hin.
      destruct Hin as [Hhas Hunused].
      apply IH; try assumption.
      * rewrite values_app. now apply nodup_snoc.
      * rewrite voices_of_gender_app, Hhas. lia.
      * rewrite voices_of_gender_app, (has_gender_exclusive _ Hhas). lia.
    + assert (Hlow : lower "female" = "female"%string) by reflexivity.
      assert (Hne : pool <> []).
      { apply (pool_not_empty "female" "female" m pool Hlow Hpool).
        change (length (filter (has_gender "female") get_all_voices))
          with 6%nat.
        lia. }
      destruct pool as [|v0 pool]; [congruence|].
      apply (pool_spec "female" "female" (values m) _ voice Hlow Hpool) in Hin.
      destruct Hin as [Hhas Hunused].
      apply IH; try assumption.
      * rewrite values_app. now apply nodup_snoc.
      * rewrite voices_of_gender_app, (has_gender_exclusive' _ Hhas). lia.
      * rewrite voices_of_gender_app, Hhas. lia.
Qed.

(** X13.  Starting from an empty dictionary, profiles that are all male or
    female, with at most 5 male and at most 6 female ones (the numbers of
    voices of the table), never share a voice: the voices of the dictionary
    are pairwise different, whatever the random draws. *)
Theorem speakers_never_share_a_voice :
  forall (pick : nat -> nat) (speakers_info : list speaker_profile),
    forallb binary_gender speakers_info = true ->
    (profiles_of_gender "male" speakers_info <= 5)%nat ->
    (profiles_of_gender "female" speakers_info <= 6)%nat ->
    NoDup (values (mapping_of (get_speaker_voices pick [] speakers_info))).
Proof.
  intros pick speakers_info Hbin Hmale Hfemale.
  apply distinct_from; [constructor|exact Hbin|exact Hmale|exact Hfemale].
Qed.

Lemma speakers_never_share_a_voice_witness :
  NoDup (values (mapping_of (get_speaker_voices (fun i => i * 7)%nat [] cast))).
Proof.
  apply speakers_never_share_a_voice; try reflexivity.
  - apply Nat.leb_le. reflexivity.
  - apply Nat.leb_le. reflexivity.
Defined.

(** X14.  The first call of [assign_voice_to_speaker] for a speaker returns
    no value and stores a voice; every later call for that speaker returns
    the stored voice and leaves the dictionary as it is, whatever gender,
    set of voices in use and draw it is given. *)
Theorem assignment_is_memoized :
  forall (m m' : voice_map) (id gender : string) (used : list string)
         (pick : nat) (ret : option string),
    lookup m id = None ->
    assign_voice_to_speaker m id gender (Some used) pick = Some (ret, m') ->
    ret = None
    /\ exists voice,
         m' = m ++ [(id, voice)]
         /\ forall gender' restricted' pick',
              assign_voice_to_speaker m' id gender' restricted' pick'
              = Some (Some voice, m').
Proof.
  intros m m' id gender used pick ret Hnew Hassign.
  destruct (assign_cases m id gender used pick)
    as [[voice [Hl _]]|[_ [pool [voice [_ [_ E]]]]]]; [congruence|].
  rewrite E in Hassign. injection Hassign as <- <-.
  split; [reflexivity|]. exists voice. split; [reflexivity|].
  intros gender' restricted' pick'. unfold assign_voice_to_speaker.
  now rewrite lookup_app, Hnew, String.eqb_refl.
Qed.

Lemma assignment_is_memoized_witness :
  exists voice,
    [("Speaker 1", "onyx")]%string = [] ++ [("Speaker 1", voice)]%string
    /\ forall gender' restricted' pick',
         assign_voice_to_speaker [("Speaker 1", "onyx")]%string "Speaker 1"
           gender' restricted' pick'
         = Some (Some voice, [("Speaker 1", "onyx")]%string).
Proof.
  apply (proj2 (assignment_is_memoized [] _ "Speaker 1" "male" [] 3 None
                  eq_refl eq_refl)).
Defined.

(** X15.  With its default argument, where no set of voices in use is given,
    [get_voices_by_gender] raises exactly for the genders that the table
    has; for any other gender it returns the empty list. *)
Theorem voices_by_gender_default_raises :
  forall gender : string,
    (get_voices_by_gender gender None = None
     <-> lower gender = "male"%string \/ lower gender = "female"%string)
    /\ (get_voices_by_gender gender None <> None ->
        get_voices_by_gender gender None = Some []).
Proof.
  intros gender. unfold get_voices_by_gender, SPEAKER_STYLES.
  cbn [voices_by_gender].
  change (lower "female") with "female"%string.
  change (lower "male") with "male"%string.
  destruct (String.eqb_spec "female" (lower gender)) as [Hf|Hf].
  - split; [split; auto|congruence].
  - destruct (String.eqb_spec "male" (lower gender)) as [Hm|Hm].
    + split; [split; auto|congruence].
    + split; [|reflexivity].
      split; [discriminate|]. intros [E|E]; congruence.
Qed.

Lemma voices_by_gender_default_raises_witness :
  get_voices_by_gender "Male" None = None
  /\ get_voices_by_gender "mixed" None = Some [].
Proof.
  split.
  - apply (proj1 (voices_by_gender_default_raises "Male")). now left.
  - apply (proj2 (voices_by_gender_default_raises "mixed")). discriminate.
Defined.

End VoicesDistinct.

(** ** The audio generator as a whole *)

Module AudioGeneratorFacts.
Import Voices DurationFitter TrackAssembler FileStore AudioGenerator.
Import GeneratorMeasures.

Lemma write_file_keeps {A : Type} (s : string -> option A) (path : string)
    (content : A) (p : string) :
  s p <> None -> write_file s path content p <> None.
Proof.
  unfold write_file. destruct (String.eqb p path); [discriminate|auto].
Qed.

Lemma write_file_same {A : Type} (s : string -> option A) (path : string)
    (content : A) :
  write_file s path content path = Some content.
Proof. unfold write_file. now rewrite String.eqb_refl. Qed.

Section Generator.

Context {P : Pydub}.
Variable call_tts : tts_request -> option string.
Variable saved_wave : string -> option wav_file.
Variable time_stretch : waveform -> Q -> option waveform.
Variable to_audio_segment : wav_file -> AudioSegment.

(** What one call of [_generate_segment_audio] does. *)
Lemma generate_segment_spec (w : world) (seg : dub_segment)
    (va : voice_map) (stm : list (string * list (string * string)))
    (dir : string) (i : nat) :
  forall res w',
    _generate_segment_audio call_tts saved_wave time_stretch w seg va stm dir i
    = (res, w') ->
    pauses w' = pauses w
    /\ (forall path, store w path <> None -> store w' path <> None)
    /\ (exists new,
           tts_requests w' = tts_requests w ++ new
           /\ length new = (if spoken seg then 1 else 0)%nat
           /\ Forall (fun r => blank (request_text r) = false) new)
    /\ (forall g, res = Generated g ->
          index_of g = Z.of_nat i
          /\ spoken seg = true
          /\ g_text g = text_of seg
          /\ g_speaker g = speaker_of seg
          /\ start_time (as_segment g)
             = get_or (d_start_time seg) "00:00:00.000"%string
          /\ g_voice_name g
             = get_or (lookup va (speaker_of seg)) "onyx"%string
          /\ (final_audio_file (as_segment g) = raw_file_of dir i
              \/ final_audio_file (as_segment g) = adjusted_file_of dir i)
          /\ ((forall data, saved_wave data <> None) ->
              store w' (final_audio_file (as_segment g)) <> None)).
Proof.
  intros res w'. unfold _generate_segment_audio, spoken, blank, text_of.
  set (text := get_or (d_translated_text seg) EmptyString).
  destruct (String.eqb (strip text) EmptyString) eqn:Hblank.
  - intros [= <- <-]. split; [reflexivity|]. split; [auto|]. split.
    + exists []. rewrite app_nil_r. repeat split. constructor.
    + intros g [=].
  - set (request := (text, _, _)).
    assert (Hreq : exists new,
               tts_requests w ++ [request] = tts_requests w ++ new
               /\ length new = (if negb false then 1 else 0)%nat
               /\ Forall (fun r => String.eqb (strip (request_text r))
                                     EmptyString = false) new).
    { exists [request]. repeat split. constructor; [exact Hblank|constructor]. }
    destruct (call_tts request) as [audio_data|].
    2:{ intros [= <- <-]. cbn [pauses store tts_requests].
        split; [reflexivity|]. split; [auto|]. split; [exact Hreq|].
        intros g [=]. }
    destruct (String.eqb audio_data EmptyString).
    { intros [= <- <-]. cbn [pauses store tts_requests].
      split; [reflexivity|]. split; [auto|]. split; [exact Hreq|].
      intros g [=]. }
    set (raw := raw_file_of dir i). set (adj := adjusted_file_of dir i).
    set (target := get_or (d_duration_seconds seg) 0%Q).
    cbn [store tts_requests pauses].
    set (saved := match saved_wave audio_data with
                  | Some file => write_file (store w) raw file
                  | None => store w
                  end).
    assert (Hsaved : forall path, store w path <> None -> saved path <> None).
    { intros path Hp. unfold saved. destruct (saved_wave audio_data);
        [now apply write_file_keeps|exact Hp]. }
    set (fitted := if negb (Qle_bool target 0) then _ else saved).
    assert (Hfitted : forall path, saved path <> None -> fitted path <> None).
    { intros path Hp. unfold fitted.
      destruct (negb (Qle_bool target 0)); [|exact Hp].
      destruct (saved raw) as [[y sr]|]; [|exact Hp].
      destruct (_adjust_audio_speed saved time_stretch raw adj target);
        [now apply write_file_keeps|exact Hp]. }
    intros [= <- <-]. cbn [pauses store tts_requests].
    split; [reflexivity|]. split; [auto|]. split; [exact Hreq|].
    intros g [= <-].
    cbn [index_of as_segment segment_index g_text g_speaker start_time
         g_voice_name final_audio_file].
    repeat (split; [reflexivity|]).
    unfold DurationFitter._generate_segment_audio.
    split.
    + destruct (negb (Qle_bool target 0)); [|now left].
      destruct (fit_success _); [now right|now left].
    + intros Htotal.
      assert (Hraw : saved raw <> None).
      { unfold saved. destruct (saved_wave audio_data) as [file|] eqn:E.
        - rewrite write_file_same. discriminate.
        - now apply Htotal in E. }
      unfold fitted. destruct (negb (Qle_bool target 0)); [|exact Hraw].
      destruct (saved raw) as [[y sr]|] eqn:Eraw; [|congruence].
      destruct (_adjust_audio_speed saved time_stretch raw adj target)
        as [flag y_fixed|why]; cbn [fit_success].
      * rewrite write_file_same. discriminate.
      * rewrite Eraw. discriminate.
Qed.

End Generator.

End AudioGeneratorFacts.

Module AudioGeneratorRuns.
Import Voices DurationFitter TrackAssembler FileStore AudioGenerator.
Import GeneratorMeasures AudioGeneratorFacts.

Section Generator.

Context {P : Pydub}.
Variable call_tts : tts_request -> option string.
Variable saved_wave : string -> option wav_file.
Variable time_stretch : waveform -> Q -> option waveform.
Variable to_audio_segment : wav_file -> AudioSegment.
Variable va : voice_map.
Variable stm : list (string * list (string * string)).
Variable dir : string.

Lemma generate_from_cons (i : nat) (w : world) (gens : list generated)
    (seg : dub_segment) (rest : list dub_segment) :
  generate_from call_tts saved_wave time_stretch i w gens va stm dir
    (seg :: rest)
  = let '(res, w') :=
      _generate_segment_audio call_tts saved_wave time_stretch (paused i w)
        seg va stm dir i in
    generate_from call_tts saved_wave time_stretch (S i) w'
      match res with
      | Generated g => gens ++ [g]
      | NotGenerated _ => gens
      end va stm dir rest.
Proof. reflexivity. Qed.

(** The generated segments are added in the order of the transcript, each
    under the position of its segment. *)
Lemma generate_from_indices (segs : list dub_segment) :
  forall i w gens gens' w',
    generate_from call_tts saved_wave time_stretch i w gens va stm dir segs
    = (gens', w') ->
    exists new,
      gens' = gens ++ new
      /\ Forall (fun g => Z.of_nat i <= index_of g
                          < Z.of_nat (i + length segs)) new
      /\ StronglySorted (fun a b => index_of a < index_of b) new.
Proof.
  induction segs as [|seg rest IH]; intros i w gens gens' w' Hrun.
  - injection Hrun as <- <-. exists []. rewrite app_nil_r.
    repeat split; constructor.
  - rewrite generate_from_cons in Hrun.
    destruct (_generate_segment_audio call_tts saved_wave time_stretch
                (paused i w) seg va stm dir i) as [res w1] eqn:Hstep.
    destruct (generate_segment_spec _ _ _ _ _ _ _ _ _ _ _ Hstep)
      as [_ [_ [_ Hgen]]].
    destruct (IH _ _ _ _ _ Hrun) as [new [-> [Hbound Hsorted]]].
    assert (Hbound' : Forall (fun g => Z.of_nat i <= index_of g
                                < Z.of_nat (i + length (seg :: rest))) new).
    { eapply Forall_impl; [|exact Hbound]. cbn [length]. intros g Hg.
      cbn beta in *. lia. }
    destruct res as [g|err].
    + destruct (Hgen g eq_refl) as [Hidx _].
      exists (g :: new). rewrite <- app_assoc. split; [reflexivity|].
      split.
      * constructor; [cbn [length]; lia|exact Hbound'].
      * constructor; [exact Hsorted|].
        eapply Forall_impl; [|exact Hbound]. intros g' Hg'.
        cbn beta in *. lia.
    + exists new. repeat split; assumption.
Qed.

(** Files are only added, and the file of every generated segment is there
    at the end when every answer of the synthesis can be saved. *)
Lemma generate_from_files (segs : list dub_segment) :
  forall i w gens gens' w',
    generate_from call_tts saved_wave time_stretch i w gens va stm dir segs
    = (gens', w') ->
    (forall path, store w path <> None -> store w' path <> None)
    /\ ((forall data, saved_wave data <> None) ->
        Forall (fun g => store w (final_audio_file (as_segment g)) <> None)
          gens ->
        Forall (fun g => store w' (final_audio_file (as_segment g)) <> None)
          gens').
Proof.
  induction segs as [|seg rest IH]; intros i w gens gens' w' Hrun.
  - injection Hrun as <- <-. auto.
  - rewrite generate_from_cons in Hrun.
    destruct (_generate_segment_audio call_tts saved_wave time_stretch
                (paused i w) seg va stm dir i) as [res w1] eqn:Hstep.
    destruct (generate_segment_spec _ _ _ _ _ _ _ _ _ _ _ Hstep)
      as [_ [Hgrow [_ Hgen]]].
    assert (Hsame : store (paused i w) = store w)
      by (unfold paused; now destruct (pause_due i)).
    rewrite Hsame in Hgrow.
    destruct (IH _ _ _ _ _ Hrun) as [Hgrow' Hfiles].
    split; [auto|].
    intros Htotal Hgens. apply (Hfiles Htotal).
    assert (Hkept : Forall (fun g => store w1 (final_audio_file (as_segment g))
                                     <> None) gens).
    { eapply Forall_impl; [|exact Hgens]. intros g. apply Hgrow. }
    destruct res as [g|err]; [|exact Hkept].
    apply Forall_app. split; [exact Hkept|].
    constructor; [|constructor].
    now apply (Hgen g eq_refl).
Qed.

(** Every generated segment comes from the segment of the transcript at its
    position. *)
Lemma generate_from_origin (segs : list dub_segment) :
  forall i w gens gens' w',
    generate_from call_tts saved_wave time_stretch i w gens va stm dir segs
    = (gens', w') ->
    exists new,
      gens' = gens ++ new
      /\ Forall (fun g =>
                   exists seg,
                     nth_error segs (Z.to_nat (index_of g) - i) = Some seg
                     /\ spoken seg = true
                     /\ g_text g = text_of seg
                     /\ g_speaker g = speaker_of seg
                     /\ start_time (as_segment g)
                        = get_or (d_start_time seg) "00:00:00.000"%string
                     /\ g_voice_name g
                        = get_or (lookup va (g_speaker g)) "onyx"%string
                     /\ (final_audio_file (as_segment g)
                         = raw_file_of dir (Z.to_nat (index_of g))
                         \/ final_audio_file (as_segment g)
                            = adjusted_file_of dir (Z.to_nat (index_of g))))
           new.
Proof.
  induction segs as [|seg rest IH]; intros i w gens gens' w' Hrun.
  - injection Hrun as <- <-. exists []. rewrite app_nil_r. split; constructor.
  - pose proof (generate_from_indices _ _ _ _ _ _ Hrun) as Hidx.
    rewrite generate_from_cons in Hrun.
    destruct (_generate_segment_audio call_tts saved_wave time_stretch
                (paused i w) seg va stm dir i) as [res w1] eqn:Hstep.
    destruct (generate_segment_spec _ _ _ _ _ _ _ _ _ _ _ Hstep)
      as [_ [_ [_ Hgen]]].
    pose proof (generate_from_indices _ _ _ _ _ _ Hrun) as [new' [E' [Hb _]]].
    destruct (IH _ _ _ _ _ Hrun) as [new [-> Horigin]].
    apply app_inv_head in E'. subst new'.
    assert (Hshift : Forall (fun g =>
                   exists s,
                     nth_error (seg :: rest) (Z.to_nat (index_of g) - i)
                     = Some s
                     /\ spoken s = true
                     /\ g_text g = text_of s
                     /\ g_speaker g = speaker_of s
                     /\ start_time (as_segment g)
                        = get_or (d_start_time s) "00:00:00.000"%string
                     /\ g_voice_name g
                        = get_or (lookup va (g_speaker g)) "onyx"%string
                     /\ (final_audio_file (as_segment g)
                         = raw_file_of dir (Z.to_nat (index_of g))
                         \/ final_audio_file (as_segment g)
                            = adjusted_file_of dir (Z.to_nat (index_of g))))
               new).
    { rewrite Forall_forall in *. intros g Hg.
      destruct (Horigin g Hg) as [s [Hnth Hrest]]. specialize (Hb g Hg).
      exists s. split; [|exact Hrest].
      replace (Z.to_nat (index_of g) - i)%nat
        with (S (Z.to_nat (index_of g) - S i)) by lia.
      exact Hnth. }
    destruct res as [g|err].
    + exists (g :: new). rewrite <- app_assoc. split; [reflexivity|].
      constructor; [|exact Hshift].
      destruct (Hgen g eq_refl)
        as [Hi [Hsp [Ht [Hs [Hst [Hv [Hf _]]]]]]].
      exists seg. rewrite Hi, Nat2Z.id, Nat.sub_diag, Hs.
      repeat split; assumption.
    + exists new. split; [reflexivity|exact Hshift].
Qed.

(** The pauses and the requests of a run. *)
Lemma generate_from_effects (segs : list dub_segment) :
  forall i w gens gens' w',
    generate_from call_tts saved_wave time_stretch i w gens va stm dir segs
    = (gens', w') ->
    pauses w'
    = pauses w ++ repeat 70 (length (filter pause_due (seq i (length segs))))
    /\ exists new,
         tts_requests w' = tts_requests w ++ new
         /\ length new = length (filter spoken segs)
         /\ Forall (fun r => blank (request_text r) = false) new.
Proof.
  induction segs as [|seg rest IH]; intros i w gens gens' w' Hrun.
  - injection Hrun as <- <-. cbn. rewrite app_nil_r. split; [reflexivity|].
    exists []. rewrite app_nil_r. repeat split. constructor.
  - rewrite generate_from_cons in Hrun.
    destruct (_generate_segment_audio call_tts saved_wave time_stretch
                (paused i w) seg va stm dir i) as [res w1] eqn:Hstep.
    destruct (generate_segment_spec _ _ _ _ _ _ _ _ _ _ _ Hstep)
      as [Hp [_ [[new1 [Hr [Hlen Hnb]]] _]]].
    destruct (IH _ _ _ _ _ Hrun) as [Hp' [new2 [Hr' [Hlen' Hnb']]]].
    assert (Hreq : tts_requests (paused i w) = tts_requests w)
      by (unfold paused; now destruct (pause_due i)).
    split.
    + rewrite Hp', Hp. cbn [length seq filter]. unfold paused.
      destruct (pause_due i); cbn [pauses length repeat].
      * now rewrite <- app_assoc.
      * reflexivity.
    + exists (new1 ++ new2). rewrite Hr', Hr, Hreq, app_assoc.
      split; [reflexivity|]. split.
      * rewrite length_app, Hlen, Hlen'. cbn [filter].
        now destruct (spoken seg).
      * apply Forall_app. now split.
Qed.

End Generator.

End AudioGeneratorRuns.

Module AudioGeneratorTheorems.
Import Voices VoicesFacts DurationFitter TrackAssembler FileStore.
Import AudioGenerator GeneratorMeasures AudioGeneratorFacts AudioGeneratorRuns.
Import AssemblerMeasures AssemblerExtras.

Lemma tts_mapping_complete (profiles : list speaker_profile) :
  forall d,
    speaker_tts_mapping_from d profiles <> None
    <-> forallb (fun p => match profile_speaker_id p,
                                profile_tts_instruction_key p with
                          | Some _, Some _ => true
                          | _, _ => false
                          end) profiles = true.
Proof.
  induction profiles as [|p rest IH]; intros d; cbn [speaker_tts_mapping_from forallb].
  - split; [reflexivity|discriminate].
  - destruct (profile_speaker_id p) as [id|];
      [|split; [congruence|discriminate]].
    destruct (profile_tts_instruction_key p) as [key|];
      [|split; [congruence|discriminate]].
    cbn [andb]. apply IH.
Qed.

Lemma speaker_voices_returned (pick : nat -> nat)
    (profiles : list speaker_profile) :
  forall i m,
    (exists m', speaker_voices_from i pick m profiles = Voices.Returned m')
    <-> forallb (fun p => match profile_speaker_id p, profile_gender p with
                          | Some _, Some _ => true
                          | _, _ => false
                          end) profiles = true.
Proof.
  induction profiles as [|p rest IH]; intros i m;
    cbn [speaker_voices_from forallb].
  - split; [reflexivity|now exists m].
  - destruct (profile_speaker_id p) as [id|];
      [|split; [intros [m' H]; discriminate|discriminate]].
    destruct (profile_gender p) as [gender|];
      [|split; [intros [m' H]; discriminate|discriminate]].
    cbn [andb].
    destruct (assign_cases m (strip id) (lower gender) (values m) (pick i))
      as [[voice [_ E]]|[_ [pool [voice [_ [_ E]]]]]]; rewrite E; apply IH.
Qed.

Lemma complete_profiles_split (profiles : list speaker_profile) :
  forallb complete_profile profiles = true
  <-> forallb (fun p => match profile_speaker_id p,
                              profile_tts_instruction_key p with
                        | Some _, Some _ => true
                        | _, _ => false
                        end) profiles = true
      /\ forallb (fun p => match profile_speaker_id p, profile_gender p with
                           | Some _, Some _ => true
                           | _, _ => false
                           end) profiles = true.
Proof.
  induction profiles as [|p rest IH]; cbn [forallb]; [tauto|].
  rewrite !andb_true_iff, IH. unfold complete_profile.
  destruct (profile_speaker_id p), (profile_gender p),
    (profile_tts_instruction_key p); intuition discriminate.
Qed.

Lemma pauses_due_count (n : nat) :
  length (filter pause_due (seq 0 n)) = ((n - 1) / 20)%nat.
Proof.
  induction n as [|n IH]; [reflexivity|].
  rewrite seq_S, filter_app, length_app, IH. cbn [Nat.add filter].
  replace (S n - 1)%nat with n by lia.
  unfold pause_due.
  pose proof (Nat.div_mod_eq n 20) as Hn.
  pose proof (Nat.mod_upper_bound n 20) as Hn'.
  pose proof (Nat.div_mod_eq (n - 1) 20) as Hm.
  pose proof (Nat.mod_upper_bound (n - 1) 20) as Hm'.
  destruct (Nat.ltb_spec 0 n) as [Hpos|Hzero]; cbn [andb].
  - destruct (Nat.eqb_spec (n mod 20) 0) as [Hmod|Hmod]; cbn [length]; lia.
  - replace n with 0%nat by lia. reflexivity.
Qed.

Section Generator.

Context {P : Pydub}.
Variable call_tts : tts_request -> option string.
Variable saved_wave : string -> option wav_file.
Variable time_stretch : waveform -> Q -> option waveform.
Variable to_audio_segment : wav_file -> AudioSegment.
Variable make_dir : string -> bool.
Variable export_wav : string -> AudioSegment -> bool.
Variable pick : nat -> nat.

(** What a successful call is made of. *)
Lemma generate_inv (w : world) (selector : voice_map) (t : transcript)
    (session_id : string) :
  let r := generate_audio_from_transcript call_tts saved_wave time_stretch
             to_audio_segment make_dir export_wav pick w selector t
             session_id in
  success r = true ->
  exists stm va,
    speaker_tts_mapping_from [] (speaker_profiles t) = Some stm
    /\ get_speaker_voices pick selector (speaker_profiles t)
       = Voices.Returned va
    /\ generate_from call_tts saved_wave time_stretch 0 w [] va stm
         (session_dir_of session_id) (dubbing_segments t)
       = (generated_segments r, world_after r)
    /\ voice_assignments r = va
    /\ total_segments r = length (generated_segments r)
    /\ final_audio_path r
       = returned_path
           (_combine_audio_segments
              (fun path => option_map to_audio_segment
                             (store (world_after r) path))
              export_wav (map as_segment (generated_segments r)) session_id)
    /\ exported_track r
       = exported
           (_combine_audio_segments
              (fun path => option_map to_audio_segment
                             (store (world_after r) path))
              export_wav (map as_segment (generated_segments r)) session_id).
Proof.
  cbv zeta. unfold generate_audio_from_transcript.
  destruct (make_dir (session_dir_of session_id)); [|discriminate].
  cbn [negb].
  destruct (speaker_tts_mapping_from [] (speaker_profiles t)) as [stm|];
    [|discriminate].
  destruct (get_speaker_voices pick selector (speaker_profiles t))
    as [va|m]; [|discriminate].
  destruct (generate_from call_tts saved_wave time_stretch 0 w [] va stm
              (session_dir_of session_id) (dubbing_segments t))
    as [gens w'] eqn:Hrun.
  intros _. exists stm, va.
  cbn [generated_segments world_after voice_assignments total_segments
       final_audio_path exported_track].
  repeat split; try reflexivity. exact Hrun.
Qed.

Lemma failed_has_no_segments (w : world) (selector : voice_map)
    (t : transcript) (session_id : string) :
  let r := generate_audio_from_transcript call_tts saved_wave time_stretch
             to_audio_segment make_dir export_wav pick w selector t
             session_id in
  success r = false -> generated_segments r = [].
Proof.
  cbv zeta. unfold generate_audio_from_transcript.
  destruct (make_dir (session_dir_of session_id)); [|reflexivity].
  cbn [negb].
  destruct (speaker_tts_mapping_from [] (speaker_profiles t)) as [stm|];
    [|reflexivity].
  destruct (get_speaker_voices pick selector (speaker_profiles t))
    as [va|m]; [|reflexivity].
  destruct (generate_from call_tts saved_wave time_stretch 0 w [] va stm
              (session_dir_of session_id) (dubbing_segments t))
    as [gens w'].
  discriminate.
Qed.

(** X16.  The generated segments are listed in the order of the transcript,
    each under the position of its segment in the transcript, so no two of
    them have the same index and the sort of the assembler leaves the list
    as it is. *)
Theorem generated_segments_are_in_order :
  forall (w : world) (selector : voice_map) (t : transcript)
         (session_id : string),
    let r := generate_audio_from_transcript call_tts saved_wave time_stretch
               to_audio_segment make_dir export_wav pick w selector t
               session_id in
    StronglySorted (fun a b => index_of a < index_of b) (generated_segments r)
    /\ Forall (fun g => 0 <= index_of g
                        < Z.of_nat (length (dubbing_segments t)))
         (generated_segments r)
    /\ sort_by_index (map as_segment (generated_segments r))
       = map as_segment (generated_segments r).
Proof.
  intros w selector t session_id r.
  assert (H : StronglySorted (fun a b => index_of a < index_of b)
                (generated_segments r)
              /\ Forall (fun g => 0 <= index_of g
                                  < Z.of_nat (length (dubbing_segments t)))
                   (generated_segments r)).
  { destruct (success r) eqn:Hs.
    - destruct (generate_inv w selector t session_id Hs)
        as [stm [va [_ [_ [Hrun _]]]]].
      fold r in Hrun.
      destruct (generate_from_indices _ _ _ _ _ _ _ _ _ _ _ _ Hrun)
        as [new [E [Hb Hsorted]]].
      cbn [app] in E. rewrite E. split; [exact Hsorted|].
      eapply Forall_impl; [|exact Hb]. intros g Hg. cbn beta in *. lia.
    - pose proof (failed_has_no_segments w selector t session_id Hs) as Hf.
      fold r in Hf. rewrite Hf. split; constructor. }
  destruct H as [Hsorted Hbound]. split; [exact Hsorted|].
  split; [exact Hbound|].
  apply sort_by_index_increasing.
  clear Hbound. induction Hsorted as [|g gens Hs IH Hg]; cbn [map].
  - constructor.
  - constructor; [exact IH|].
    apply Forall_map. eapply Forall_impl; [|exact Hg].
    intros g' Hlt. unfold index_le, index_of in *. lia.
Qed.

(** X17.  A successful call pauses for 70 seconds before every twentieth
    segment of the transcript after the first, whether the segments are
    generated or not: with [n] segments it takes [(n - 1) / 20] pauses. *)
Theorem generator_pauses_every_twenty_segments :
  forall (w : world) (selector : voice_map) (t : transcript)
         (session_id : string),
    let r := generate_audio_from_transcript call_tts saved_wave time_stretch
               to_audio_segment make_dir export_wav pick w selector t
               session_id in
    success r = true ->
    pauses (world_after r)
    = pauses w ++ repeat 70 ((length (dubbing_segments t) - 1) / 20)%nat.
Proof.
  intros w selector t session_id r Hs.
  destruct (generate_inv w selector t session_id Hs)
    as [stm [va [_ [_ [Hrun _]]]]].
  fold r in Hrun.
  destruct (generate_from_effects _ _ _ _ _ _ _ _ _ _ _ _ Hrun) as [Hp _].
  now rewrite Hp, pauses_due_count.
Qed.

(** X18.  A successful call sends one request to the speech synthesis for
    each segment whose text is not blank, and none with a blank text:
    nothing is sent twice, also when the synthesis fails. *)
Theorem generator_requests_spoken_segments_once :
  forall (w : world) (selector : voice_map) (t : transcript)
         (session_id : string),
    let r := generate_audio_from_transcript call_tts saved_wave time_stretch
               to_audio_segment make_dir export_wav pick w selector t
               session_id in
    success r = true ->
    exists new,
      tts_requests (world_after r) = tts_requests w ++ new
      /\ length new = length (filter spoken (dubbing_segments t))
      /\ Forall (fun request => blank (request_text request) = false) new.
Proof.
  intros w selector t session_id r Hs.
  destruct (generate_inv w selector t session_id Hs)
    as [stm [va [_ [_ [Hrun _]]]]].
  fold r in Hrun.
  now destruct (generate_from_effects _ _ _ _ _ _ _ _ _ _ _ _ Hrun)
    as [_ Hreq].
Qed.

Lemma generated_origin :
  forall (w : world) (selector : voice_map) (t : transcript)
         (session_id : string),
    let r := generate_audio_from_transcript call_tts saved_wave time_stretch
               to_audio_segment make_dir export_wav pick w selector t
               session_id in
    forall g, In g (generated_segments r) ->
      exists seg,
        nth_error (dubbing_segments t) (Z.to_nat (index_of g)) = Some seg
        /\ spoken seg = true
        /\ g_text g = text_of seg
        /\ g_speaker g = speaker_of seg
        /\ start_time (as_segment g)
           = get_or (d_start_time seg) "00:00:00.000"%string
        /\ g_voice_name g
           = get_or (lookup (voice_assignments r) (g_speaker g)) "onyx"%string
        /\ (final_audio_file (as_segment g)
            = raw_file_of (session_dir_of session_id) (Z.to_nat (index_of g))
            \/ final_audio_file (as_segment g)
               = adjusted_file_of (session_dir_of session_id)
                   (Z.to_nat (index_of g))).
Proof.
  intros w selector t session_id r g Hg.
  destruct (success r) eqn:Hs.
  - destruct (generate_inv w selector t session_id Hs)
      as [stm [va [_ [_ [Hrun [Hva _]]]]]].
    fold r in Hrun, Hva.
    destruct (generate_from_origin _ _ _ _ _ _ _ _ _ _ _ _ Hrun)
      as [new [E Horigin]].
    cbn [app] in E. rewrite <- E in Horigin.
    rewrite Forall_forall in Horigin.
    destruct (Horigin g Hg) as [seg Hseg]. exists seg.
    rewrite Nat.sub_0_r in Hseg. now rewrite Hva.
  - pose proof (failed_has_no_segments w selector t session_id Hs) as Hf.
    fold r in Hf. rewrite Hf in Hg. destruct Hg.
Qed.

(** X19.  Every generated segment comes from the segment of the transcript
    at its index: that segment has a text that is not blank, which is the
    text spoken; the generated segment carries its start time (the default
    text when it has none), the voice assigned to its speaker as the
    speaker is written (the voice onyx when there is none), and as its final
    file the raw or the adjusted file of its index. *)
Theorem generated_segment_matches_transcript :
  forall (w : world) (selector : voice_map) (t : transcript)
         (session_id : string),
    let r := generate_audio_from_transcript call_tts saved_wave time_stretch
               to_audio_segment make_dir export_wav pick w selector t
               session_id in
    forall g, In g (generated_segments r) ->
      exists seg,
        nth_error (dubbing_segments t) (Z.to_nat (index_of g)) = Some seg
        /\ spoken seg = true
        /\ g_text g = text_of seg
        /\ g_speaker g = speaker_of seg
        /\ start_time (as_segment g)
           = get_or (d_start_time seg) "00:00:00.000"%string
        /\ g_voice_name g
           = get_or (lookup (voice_assignments r) (g_speaker g)) "onyx"%string
        /\ (final_audio_file (as_segment g)
            = raw_file_of (session_dir_of session_id) (Z.to_nat (index_of g))
            \/ final_audio_file (as_segment g)
               = adjusted_file_of (session_dir_of session_id)
                   (Z.to_nat (index_of g))).
Proof. exact generated_origin. Qed.

(** The call fails only in making the directory of the session and in
    reading the profiles. *)
Lemma success_iff_complete_profiles :
  forall (w : world) (selector : voice_map) (t : transcript)
         (session_id : string),
    success (generate_audio_from_transcript call_tts saved_wave time_stretch
               to_audio_segment make_dir export_wav pick w selector t
               session_id) = true
    <-> make_dir (session_dir_of session_id) = true
        /\ forallb complete_profile (speaker_profiles t) = true.
Proof.
  intros w selector t session_id.
  rewrite complete_profiles_split.
  rewrite <- (tts_mapping_complete (speaker_profiles t) []).
  rewrite <- (speaker_voices_returned pick (speaker_profiles t) 0 selector).
  unfold generate_audio_from_transcript, get_speaker_voices.
  destruct (make_dir (session_dir_of session_id)); cbn [negb];
    [|cbn [success failed_result]; split; [discriminate|intros [H _]; discriminate]].
  destruct (speaker_tts_mapping_from [] (speaker_profiles t)) as [stm|].
  - destruct (speaker_voices_from 0 pick selector (speaker_profiles t))
      as [va|m].
    + destruct (generate_from call_tts saved_wave time_stretch 0 w [] va stm
                  (session_dir_of session_id) (dubbing_segments t)).
      cbn [success]. split; [|reflexivity].
      intros _. split; [reflexivity|]. split; [discriminate|now exists va].
    + cbn [success]. split; [discriminate|].
      intros [_ [_ [m' H]]]. discriminate.
  - cbn [success]. split; [discriminate|]. intros [_ [H _]]. congruence.
Qed.

(** X20.  When the directory of the session can be made and every speaker
    profile has a name, a gender and an instruction key, the call reports
    success, whatever happens to the segments; and a call that generates no
    segment and reports success has the empty path as its final audio path
    and exports no track. *)
Theorem generation_succeeds_without_audio :
  forall (w : world) (selector : voice_map) (t : transcript)
         (session_id : string),
    let r := generate_audio_from_transcript call_tts saved_wave time_stretch
               to_audio_segment make_dir export_wav pick w selector t
               session_id in
    (make_dir (session_dir_of session_id) = true ->
     forallb complete_profile (speaker_profiles t) = true ->
     success r = true)
    /\ (success r = true -> generated_segments r = [] ->
        final_audio_path r = EmptyString /\ exported_track r = None).
Proof.
  intros w selector t session_id r. split.
  - intros Hdir Hcomplete.
    now apply success_iff_complete_profiles.
  - intros Hs Hnone.
    destruct (generate_inv w selector t session_id Hs)
      as [_ [_ [_ [_ [_ [_ [_ [Hpath Hexp]]]]]]]].
    fold r in Hpath, Hexp. rewrite Hpath, Hexp, Hnone. split; reflexivity.
Qed.

Lemma combine_loop_readable (from_wav : string -> option AudioSegment)
    (segments : list segment) :
  Forall (fun s => from_wav (final_audio_file s) <> None) segments ->
  forall st, combine_loop from_wav st segments <> None.
Proof.
  induction 1 as [|s rest Hs _ IH]; intros st; cbn [combine_loop];
    [discriminate|].
  unfold add_segment.
  destruct (from_wav (final_audio_file s)); [apply IH|congruence].
Qed.

(** X21.  When every answer of the speech synthesis can be saved, the final
    file of every generated segment is on disk when the track is assembled,
    so the loop of the assembler does not fail: a successful call that
    generates a segment ends with a track, and it returns the path of the
    final file and has exported the track when the export succeeds, and
    returns the empty path when the export fails. *)
Theorem generated_audio_is_assembled :
  forall (w : world) (selector : voice_map) (t : transcript)
         (session_id : string),
    let r := generate_audio_from_transcript call_tts saved_wave time_stretch
               to_audio_segment make_dir export_wav pick w selector t
               session_id in
    let final_file :=
      PyPath.path_join output_dir
        ("dubbed_audio_" ++ session_id ++ ".wav")%string in
    (forall audio_data, saved_wave audio_data <> None) ->
    success r = true -> generated_segments r <> [] ->
    Forall (fun g => store (world_after r) (final_audio_file (as_segment g))
                     <> None) (generated_segments r)
    /\ exists track,
         (export_wav final_file track = true ->
          final_audio_path r = final_file
          /\ exported_track r = Some (final_file, track))
         /\ (export_wav final_file track = false ->
             final_audio_path r = EmptyString /\ exported_track r = None).
Proof.
  intros w selector t session_id r out Hsaved Hs Hsome.
  destruct (generate_inv w selector t session_id Hs)
    as [stm [va [_ [_ [Hrun [_ [_ [Hpath Hexp]]]]]]]].
  fold r in Hrun, Hpath, Hexp.
  destruct (generate_from_files _ _ _ _ _ _ _ _ _ _ _ _ Hrun) as [_ Hfiles].
  specialize (Hfiles Hsaved (Forall_nil _)).
  split; [exact Hfiles|].
  rewrite Hpath, Hexp. unfold _combine_audio_segments.
  destruct (map as_segment (generated_segments r)) as [|s0 rest] eqn:Hmap.
  - destruct (generated_segments r); [congruence|discriminate].
  - rewrite <- Hmap.
    destruct (combine_loop _ initial_state
                (sort_by_index (map as_segment (generated_segments r))))
      as [st|] eqn:Hloop.
    + exists (combined_audio st). fold out.
      destruct (export_wav out (combined_audio st));
        cbn [returned_path exported no_track];
        split; intros E; try discriminate E; split; reflexivity.
    + exfalso. revert Hloop. apply combine_loop_readable.
      apply (Permutation_Forall
               (Permutation_sym (TrackAssemblerFacts.sort_by_index_perm _))).
      apply Forall_map. eapply Forall_impl; [|exact Hfiles].
      intros g Hg. cbn beta in *.
      destruct (store (world_after r) (final_audio_file (as_segment g)));
        [discriminate|congruence].
Qed.

End Generator.

End AudioGeneratorTheorems.

Module SegmentFiles.
Import AudioGenerator.

Lemma append_inv_head (p a b : string) :
  (p ++ a)%string = (p ++ b)%string -> a = b.
Proof.
  induction p as [|c p IH]; simpl; [auto|]. intros [= H]. now apply IH.
Qed.

Lemma list_of_append (a b : string) :
  list_ascii_of_string (a ++ b) = list_ascii_of_string a ++ list_ascii_of_string b.
Proof. induction a as [|c a IH]; simpl; [reflexivity|now rewrite IH]. Qed.

Lemma list_of_string_inj (a b : string) :
  list_ascii_of_string a = list_ascii_of_string b -> a = b.
Proof.
  intros H. rewrite <- (string_of_list_ascii_of_string a),
    <- (string_of_list_ascii_of_string b). now rewrite H.
Qed.

Lemma append_inv_tail (a b s : string) :
  (a ++ s)%string = (b ++ s)%string -> a = b.
Proof.
  intros H. apply list_of_string_inj.
  apply (f_equal list_ascii_of_string) in H.
  rewrite !list_of_append in H. now apply app_inv_tail in H.
Qed.

(** Reading back the digits written by [format_04d]. *)
Lemma zeros_read (k : nat) (s : string) (d : Decimal.uint) :
  DecimalString.NilEmpty.uint_of_string s = Some d ->
  exists d',
    DecimalString.NilEmpty.uint_of_string
      (string_of_list_ascii (repeat "0"%char k) ++ s) = Some d'
    /\ Nat.of_uint d' = Nat.of_uint d.
Proof.
  intros Hs. induction k as [|k [d' [Hd' Hn]]]; [now exists d|].
  exists (Decimal.D0 d'). cbn [repeat string_of_list_ascii String.append].
  cbn [DecimalString.NilEmpty.uint_of_string]. rewrite Hd'.
  split; [reflexivity|exact Hn].
Qed.

Lemma format_04d_inj (i j : nat) : format_04d i = format_04d j -> i = j.
Proof.
  unfold format_04d. intros H.
  destruct (zeros_read
              (4 - String.length
                     (DecimalString.NilEmpty.string_of_uint (Nat.to_uint i)))
              _ _ (DecimalString.NilEmpty.usu (Nat.to_uint i)))
    as [di [Hdi Hni]].
  destruct (zeros_read
              (4 - String.length
                     (DecimalString.NilEmpty.string_of_uint (Nat.to_uint j)))
              _ _ (DecimalString.NilEmpty.usu (Nat.to_uint j)))
    as [dj [Hdj Hnj]].
  rewrite H, Hdj in Hdi. injection Hdi as <-.
  rewrite DecimalNat.Unsigned.of_to in Hni, Hnj. congruence.
Qed.

(** X22.  The files of the segments of a session never collide: two
    positions have different raw files and different adjusted files, and no
    raw file is an adjusted file. *)
Theorem segment_files_never_collide :
  forall (session_dir : string) (i j : nat),
    (raw_file_of session_dir i = raw_file_of session_dir j -> i = j)
    /\ (adjusted_file_of session_dir i = adjusted_file_of session_dir j
        -> i = j)
    /\ raw_file_of session_dir i <> adjusted_file_of session_dir j.
Proof.
  intros session_dir i j. unfold raw_file_of, adjusted_file_of.
  split; [|split]; intros H; apply append_inv_head in H;
    apply (append_inv_head "/segment_") in H.
  - now apply append_inv_tail, format_04d_inj in H.
  - now apply append_inv_tail, format_04d_inj in H.
  - apply (f_equal list_ascii_of_string) in H.
    rewrite !list_of_append in H.
    apply (f_equal (@rev ascii)) in H. rewrite !rev_app_distr in H.
    simpl in H. discriminate H.
Qed.

Lemma segment_files_never_collide_witness :
  (7 = 7)%nat
  /\ raw_file_of "data/audio_segments/demo" 7
     <> adjusted_file_of "data/audio_segments/demo" 7.
Proof.
  split.
  - apply (proj1 (segment_files_never_collide "data/audio_segments/demo"
                    7 7)).
    reflexivity.
  - apply (proj2 (proj2 (segment_files_never_collide
                           "data/audio_segments/demo" 7 7))).
Defined.

End SegmentFiles.

Module StrippedNames.
Import PyStr Voices VoicesFacts GeneratorMeasures.

Lemma lstrip_head (l : str) : head_not_space (lstrip l).
Proof.
  induction l as [|c l IH]; simpl; [exact I|].
  destruct (is_space c) eqn:E; [exact IH|exact E].
Qed.

Lemma lstrip_fixed (l : str) : head_not_space l -> lstrip l = l.
Proof. destruct l as [|c l]; simpl; [auto|]. now intros ->. Qed.

Lemma lstrip_suffix (l : str) : exists p, l = p ++ lstrip l.
Proof.
  induction l as [|c l [p Hp]]; simpl; [now exists []|].
  destruct (is_space c); [|now exists []].
  exists (c :: p). simpl. now rewrite <- Hp.
Qed.

Lemma rstrip_prefix (l : str) : exists t, l = rev (lstrip (rev l)) ++ t.
Proof.
  destruct (lstrip_suffix (rev l)) as [p Hp].
  exists (rev p). rewrite <- rev_app_distr, <- Hp. now rewrite rev_involutive.
Qed.

Lemma strip_list_idempotent (l : str) :
  rev (lstrip (rev (lstrip (rev (lstrip (rev (lstrip l)))))))
  = rev (lstrip (rev (lstrip l))).
Proof.
  set (l1 := lstrip l). set (l2 := rev (lstrip (rev l1))).
  assert (H2 : lstrip l2 = l2).
  { apply lstrip_fixed. destruct (rstrip_prefix l1) as [t Ht].
    fold l2 in Ht. pose proof (lstrip_head l) as Hh. fold l1 in Hh.
    destruct l2 as [|c l2']; [exact I|]. rewrite Ht in Hh. exact Hh. }
  rewrite H2. unfold l2. rewrite rev_involutive.
  rewrite (lstrip_fixed (lstrip (rev l1))); [reflexivity|apply lstrip_head].
Qed.

(** Stripping a name twice is stripping it once. *)
Lemma strip_idempotent (s : string) : strip (strip s) = strip s.
Proof.
  unfold strip. rewrite list_ascii_of_string_of_list_ascii.
  now rewrite strip_list_idempotent.
Qed.

Lemma lookup_key {A : Type} (m : list (string * A)) (key : string) (v : A) :
  lookup m key = Some v -> exists item, In item m /\ fst item = key.
Proof.
  induction m as [|[k x] m IH]; simpl; [discriminate|].
  destruct (String.eqb_spec k key) as [->|_].
  - intros _. exists (key, x). split; [now left|reflexivity].
  - intros H. destruct (IH H) as [item [Hin Hk]]. exists item. split; auto.
Qed.

Lemma speaker_voices_stripped (pick : nat -> nat)
    (speakers_info : list speaker_profile) :
  forall i m,
    GeneratorMeasures.stripped_keys m ->
    GeneratorMeasures.stripped_keys
      (mapping_of (speaker_voices_from i pick m speakers_info)).
Proof.
  induction speakers_info as [|p rest IH]; intros i m Hm;
    cbn [speaker_voices_from]; [exact Hm|].
  destruct (profile_speaker_id p) as [id|]; [|exact Hm].
  destruct (profile_gender p) as [gender|]; [|exact Hm].
  destruct (assign_cases m (strip id) (lower gender) (values m) (pick i))
    as [[voice [_ E]]|[_ [pool [voice [_ [_ E]]]]]]; rewrite E; apply IH;
    [exact Hm|].
  apply Forall_app. split; [exact Hm|].
  constructor; [apply strip_idempotent|constructor].
Qed.

End StrippedNames.

Module AudioGeneratorNames.
Import Voices VoicesFacts DurationFitter TrackAssembler AudioGenerator.
Import GeneratorMeasures AudioGeneratorTheorems StrippedNames.

Section Generator.

Context {P : Pydub}.
Variable call_tts : tts_request -> option string.
Variable saved_wave : string -> option wav_file.
Variable time_stretch : waveform -> Q -> option waveform.
Variable to_audio_segment : wav_file -> AudioSegment.
Variable make_dir : string -> bool.
Variable export_wav : string -> AudioSegment -> bool.
Variable pick : nat -> nat.

(** X23.  Voices are stored under the names of the speakers without the
    white space around them, and looked up under the name as the segment
    writes it: a generated segment whose speaker is written with white
    space around the name is spoken with the voice onyx, not with the voice
    assigned to that speaker. *)
Theorem unstripped_speaker_gets_default_voice :
  forall (w : world) (selector : voice_map) (t : transcript)
         (session_id : string),
    let r := generate_audio_from_transcript call_tts saved_wave time_stretch
               to_audio_segment make_dir export_wav pick w selector t
               session_id in
    stripped_keys selector ->
    forall g, In g (generated_segments r) ->
      strip (g_speaker g) <> g_speaker g ->
      g_voice_name g = "onyx"%string.
Proof.
  intros w selector t session_id r Hkeys g Hg Hspace.
  destruct (generated_origin call_tts saved_wave
              time_stretch to_audio_segment
              make_dir export_wav pick w selector t
              session_id
              g Hg) as [seg [_ [_ [_ [_ [_ [Hvoice _]]]]]]].
  fold r in Hvoice. rewrite Hvoice.
  destruct (lookup (voice_assignments r) (g_speaker g)) as [voice|] eqn:Hl;
    [|reflexivity].
  exfalso. apply Hspace.
  assert (Hva : stripped_keys (voice_assignments r)).
  { destruct (success r) eqn:Hs.
    - destruct (generate_inv call_tts saved_wave time_stretch
                  to_audio_segment make_dir export_wav pick w selector t
                  session_id Hs)
        as [stm [va [_ [Hvoices [_ [Hva _]]]]]].
      fold r in Hva. rewrite Hva.
      pose proof (speaker_voices_stripped pick (speaker_profiles t) 0
                    selector Hkeys) as H.
      unfold get_speaker_voices in Hvoices. now rewrite Hvoices in H.
    - pose proof (failed_has_no_segments call_tts saved_wave time_stretch
                    to_audio_segment make_dir export_wav pick w selector t
                    session_id Hs) as Hf.
      fold r in Hf. rewrite Hf in Hg. destruct Hg. }
  destruct (lookup_key _ _ _ Hl) as [item [Hin Hk]].
  unfold stripped_keys in Hva. rewrite Forall_forall in Hva.
  rewrite <- Hk. now apply Hva.
Qed.

End Generator.

End AudioGeneratorNames.

Module StudioWitnesses.
Import Voices DurationFitter TrackAssembler AudioGenerator GeneratorMeasures.
Import AudioGeneratorTheorems AudioGeneratorNames MsFrames Studio.

Lemma generated_segments_are_in_order_witness :
  sort_by_index (map as_segment (generated_segments (studio_run script)))
  = map as_segment (generated_segments (studio_run script)).
Proof.
  apply (generated_segments_are_in_order (P := ms_frames) studio_tts
           studio_saved Sessions.resampling_stretch studio_segment
           Sessions.disk_mkdir Sessions.disk_export
           (fun i => i * 7)%nat silent_world [] script "demo"%string).
Defined.

(** Forty-one segments: a pause before the twenty-first and one before the
    forty-first. *)
Lemma generator_pauses_every_twenty_segments_witness :
  length (dubbing_segments long_script) = 41%nat
  /\ pauses (world_after (studio_run long_script)) = [70; 70].
Proof.
  split; [reflexivity|].
  apply (generator_pauses_every_twenty_segments (P := ms_frames) studio_tts
           studio_saved Sessions.resampling_stretch studio_segment
           Sessions.disk_mkdir Sessions.disk_export
           (fun i => i * 7)%nat silent_world [] long_script "demo"%string).
  vm_compute. reflexivity.
Defined.

Lemma generator_requests_spoken_segments_once_witness :
  exists new,
    tts_requests (world_after (studio_run script))
    = tts_requests silent_world ++ new
    /\ length new = length (filter spoken (dubbing_segments script))
    /\ Forall (fun request => blank (request_text request) = false) new.
Proof.
  apply (generator_requests_spoken_segments_once (P := ms_frames) studio_tts
           studio_saved Sessions.resampling_stretch studio_segment
           Sessions.disk_mkdir Sessions.disk_export
           (fun i => i * 7)%nat silent_world [] script "demo"%string).
  reflexivity.
Defined.

Lemma generation_succeeds_without_audio_witness :
  success (studio_run silent_script) = true
  /\ final_audio_path (studio_run silent_script) = EmptyString
  /\ exported_track (studio_run silent_script) = None.
Proof.
  pose proof (generation_succeeds_without_audio (P := ms_frames) studio_tts
                studio_saved Sessions.resampling_stretch studio_segment
                Sessions.disk_mkdir Sessions.disk_export
                (fun i => i * 7)%nat silent_world [] silent_script
                "demo"%string) as [Hsuccess Hnone].
  assert (Hs : success (studio_run silent_script) = true).
  { apply Hsuccess; reflexivity. }
  split; [exact Hs|]. apply (Hnone Hs). reflexivity.
Defined.

(** The session "demo" exports its track; the session "a/" generates the
    same segments and returns the empty path, because its final file would
    lie in a directory that does not exist. *)
Lemma generated_audio_is_assembled_witness :
  (final_audio_path (studio_run script)
   = "data/output/dubbed_audio_demo.wav"%string
   /\ exists track,
        exported_track (studio_run script)
        = Some ("data/output/dubbed_audio_demo.wav"%string, track))
  /\ (success (studio_session "a/" script) = true
      /\ length (generated_segments (studio_session "a/" script)) = 2%nat
      /\ final_audio_path (studio_session "a/" script) = EmptyString
      /\ exported_track (studio_session "a/" script) = None).
Proof.
  split.
  - destruct (generated_audio_is_assembled (P := ms_frames) studio_tts
                studio_saved Sessions.resampling_stretch studio_segment
                Sessions.disk_mkdir Sessions.disk_export
                (fun i => i * 7)%nat silent_world [] script "demo"%string)
      as [_ [track [Hwritten _]]].
    + intros audio_data. discriminate.
    + reflexivity.
    + vm_compute. discriminate.
    + destruct (Hwritten eq_refl) as [Hpath Hexp].
      split; [exact Hpath|]. exists track. exact Hexp.
  - split; [reflexivity|]. split; [vm_compute; reflexivity|].
    destruct (generated_audio_is_assembled (P := ms_frames) studio_tts
                studio_saved Sessions.resampling_stretch studio_segment
                Sessions.disk_mkdir Sessions.disk_export
                (fun i => i * 7)%nat silent_world [] script "a/"%string)
      as [_ [track [_ Hfailed]]].
    + intros audio_data. discriminate.
    + reflexivity.
    + vm_compute. discriminate.
    + exact (Hfailed eq_refl).
Defined.

Lemma generated_segment_matches_transcript_witness :
  exists seg,
    nth_error (dubbing_segments script) (Z.to_nat (index_of last_generated))
    = Some seg
    /\ spoken seg = true
    /\ g_text last_generated = text_of seg
    /\ g_speaker last_generated = speaker_of seg
    /\ start_time (as_segment last_generated)
       = get_or (d_start_time seg) "00:00:00.000"%string
    /\ g_voice_name last_generated
       = get_or (lookup (voice_assignments (studio_run script))
                   (g_speaker last_generated)) "onyx"%string
    /\ (final_audio_file (as_segment last_generated)
        = raw_file_of (session_dir_of "demo")
            (Z.to_nat (index_of last_generated))
        \/ final_audio_file (as_segment last_generated)
           = adjusted_file_of (session_dir_of "demo")
               (Z.to_nat (index_of last_generated))).
Proof.
  apply (generated_segment_matches_transcript (P := ms_frames) studio_tts
           studio_saved Sessions.resampling_stretch studio_segment
           Sessions.disk_mkdir Sessions.disk_export
           (fun i => i * 7)%nat silent_world [] script "demo"%string
           last_generated).
  right. left. reflexivity.
Defined.

Lemma unstripped_speaker_gets_default_voice_witness :
  g_voice_name last_generated = "onyx"%string.
Proof.
  apply (unstripped_speaker_gets_default_voice (P := ms_frames) studio_tts
           studio_saved Sessions.resampling_stretch studio_segment
           Sessions.disk_mkdir Sessions.disk_export
           (fun i => i * 7)%nat silent_world [] script "demo"%string).
  - constructor.
  - right. left. reflexivity.
  - vm_compute. discriminate.
Defined.

End StudioWitnesses.

(** ** Transcript validation and the pipeline *)

Module PipelineFacts.
Import Voices VoicesFacts DurationFitter TrackAssembler AudioGenerator.
Import GeneratorMeasures AudioGeneratorFacts AudioGeneratorRuns.
Import AudioGeneratorTheorems Pipeline.

Lemma validate_complete_profiles (profiles : list speaker_profile) :
  forallb complete_profile profiles = true ->
  map validate_profile profiles = profiles.
Proof.
  induction profiles as [|p rest IH]; cbn [forallb map]; [reflexivity|].
  intros H. apply andb_prop in H. destruct H as [Hp Hrest].
  rewrite (IH Hrest). f_equal.
  destruct p as [[id|] [gender|] [key|]]; try discriminate Hp. reflexivity.
Qed.

Section Pipeline.

Context {P : Pydub}.
Variable prepare_video : string -> option string.
Variable transcribe : string -> string -> string -> option transcript.
Variable combine_video_with_audio : mux_call -> option string.
Variable stem : string -> string.
Variable clock_session_id : string.
Variable call_tts : tts_request -> option string.
Variable saved_wave : string -> option wav_file.
Variable time_stretch : waveform -> Q -> option waveform.
Variable to_audio_segment : wav_file -> AudioSegment.
Variable make_dir : string -> bool.
Variable export_wav : string -> AudioSegment -> bool.
Variable pick : nat -> nat.




Lemma nothing_spoken_nothing_generated (w : world) (selector : voice_map)
    (t : transcript) (session_id : string) :
  filter spoken (dubbing_segments t) = [] ->
  generated_segments
    (generate_audio_from_transcript call_tts saved_wave time_stretch
       to_audio_segment make_dir export_wav pick w selector t session_id) = [].
Proof.
  intros Hnone.
  destruct (generated_segments _) as [|g gens] eqn:E; [reflexivity|].
  exfalso.
  destruct (generated_origin call_tts saved_wave time_stretch
              to_audio_segment make_dir export_wav pick w selector t
              session_id g)
    as [seg [Hnth [Hspoken _]]].
  - rewrite E. now left.
  - apply nth_error_In in Hnth.
    assert (Hin : In seg (filter spoken (dubbing_segments t)))
      by (apply filter_In; now split).
    rewrite Hnone in Hin. destruct Hin.
Qed.

Lemma validated_spoken (segs : list dub_segment) :
  filter spoken (map validate_segment segs) = []
  <-> filter spoken segs = [].
Proof.
  induction segs as [|seg rest IH]; cbn [map filter]; [tauto|].
  change (spoken (validate_segment seg)) with (spoken seg).
  destruct (spoken seg); [split; discriminate|exact IH].
Qed.

(** X26.  A transcript in which no segment has a text to speak does not
    stop the pipeline: when the video is prepared, the transcript is
    obtained with complete speaker profiles and the directory of the
    session can be made, the audio step counts as a success and the muxer is
    called once, with the empty path as the path of the dubbed audio. *)
Theorem silent_transcript_reaches_the_muxer :
  forall (w : world) (selector : voice_map)
         (video_source target_language video_context video_path : string)
         (output_filename session_id : option string) (t : transcript),
    prepare_video video_source = Some video_path ->
    transcribe video_source target_language video_context = Some t ->
    make_dir
      (session_dir_of (session_id_or_clock clock_session_id session_id))
    = true ->
    forallb complete_profile (speaker_profiles t) = true ->
    filter spoken (dubbing_segments t) = [] ->
    let result :=
      process_video prepare_video transcribe combine_video_with_audio stem
        clock_session_id call_tts saved_wave time_stretch to_audio_segment
        make_dir export_wav pick w selector video_source target_language
        video_context output_filename session_id in
    (exists name, p_mux_calls result = [(video_path, EmptyString, name)])
    /\ p_error_message result <> Some "Audio generation failed"%string.
Proof.
  intros w selector video_source target_language video_context video_path
    output_filename session_id t Hprep Hasr Hdir Hcomplete Hsilent.
  cbv zeta. unfold process_video, process_youtube_url_for_transcript.
  rewrite Hprep, Hasr. cbn [option_map].
  set (sid := session_id_or_clock clock_session_id session_id) in *.
  set (r := generate_audio_from_transcript call_tts saved_wave time_stretch
              to_audio_segment make_dir export_wav pick w selector
              (_validate_transcript t) sid).
  assert (Hs : success r = true).
  { apply (success_iff_complete_profiles call_tts saved_wave time_stretch
             to_audio_segment make_dir export_wav pick w selector
             (_validate_transcript t) sid).
    split; [exact Hdir|].
    cbn [_validate_transcript speaker_profiles].
    now rewrite (validate_complete_profiles _ Hcomplete). }
  assert (Hnone : generated_segments r = []).
  { apply nothing_spoken_nothing_generated.
    cbn [_validate_transcript dubbing_segments]. now apply validated_spoken. }
  assert (Hpath : final_audio_path r = EmptyString).
  { destruct (generate_inv call_tts saved_wave time_stretch to_audio_segment
                make_dir export_wav pick w selector (_validate_transcript t)
                sid Hs)
      as [_ [_ [_ [_ [_ [_ [_ [Hp _]]]]]]]].
    fold r in Hp. now rewrite Hp, Hnone. }
  rewrite Hs, Hpath. cbn [negb].
  match goal with
  | |- context [combine_video_with_audio ?call] =>
      destruct (combine_video_with_audio call)
  end; cbn [p_mux_calls p_error_message error_result];
    (split; [eexists; reflexivity|discriminate]).
Qed.

End Pipeline.

Import MsFrames Studio Premiere.


(** The pipeline on [bare_script] reaches the muxer under the session
    "demo"; under the session "new/dir", whose directory cannot be made, it
    stops at the audio step. *)
Lemma silent_transcript_reaches_the_muxer_witness :
  ((exists name,
       p_mux_calls (premiere bare_script)
       = [("film.mp4"%string, EmptyString, name)])
   /\ p_error_message (premiere bare_script)
      <> Some "Audio generation failed"%string)
  /\ p_mux_calls (premiere_session "new/dir" bare_script) = []
  /\ p_error_message (premiere_session "new/dir" bare_script)
     = Some "Audio generation failed"%string.
Proof.
  split.
  - apply (silent_transcript_reaches_the_muxer (P := ms_frames)
             (fun source => Some source) (fun _ _ _ => Some bare_script)
             (fun call => Some "data/output/film_dubbed_hindi.mp4"%string)
             (fun path => "film"%string) "dubbing_1700000000"%string
             studio_tts studio_saved Sessions.resampling_stretch studio_segment
             Sessions.disk_mkdir Sessions.disk_export
             (fun i => i * 7)%nat silent_world [] "film.mp4"%string
             "Hindi"%string EmptyString "film.mp4"%string None
             (Some "demo"%string) bare_script); reflexivity.
  - split; reflexivity.
Defined.

End PipelineFacts.
